(** * The Winforms proactor event loop (toga_winforms/libs/proactor.py)

    A shallow embedding of [WinformsProactorEventLoop]: the asyncio event
    loop that is driven by ticks queued on the Winforms message loop instead
    of by a [while True] loop of its own.

    The embedding follows the branch of the source that is written out in the
    file, the one taken by interpreters below Python 3.13
    ([sys.version_info < (3, 13)]).  What the class inherits from asyncio
    ([call_soon], [stop], [_check_closed], [is_running],
    [_set_coroutine_origin_tracking]) is modelled after CPython's
    [Lib/asyncio/base_events.py]; what it cannot know (the scheduler pass
    [_run_once] and the callables handed to [start_inner_loop]) is a
    parameter of the development. *)

From Stdlib Require Import List String Bool Arith Lia.
Import ListNotations.
Local Open Scope string_scope.
Local Open Scope list_scope.

(** ** Python exceptions *)

(** The exception classes the code can meet: the builtins it raises itself,
    the interpreter-control exceptions that derive from [BaseException]
    only, and classes defined by application code. *)
Inductive exn_class : Type :=
| BaseException
| Exception
| RuntimeError
| AssertionError
| AttributeError
| TypeError
| KeyboardInterrupt
| SystemExit
| GeneratorExit
| CancelledError
| UserException (name : string)
| UserBaseException (name : string).

Lemma exn_class_eq_dec (c d : exn_class) : {c = d} + {c <> d}.
Proof. decide equality; apply string_dec. Defined.

(** The direct base class. *)
Definition base (c : exn_class) : option exn_class :=
  match c with
  | BaseException => None
  | Exception | KeyboardInterrupt | SystemExit | GeneratorExit
  | CancelledError | UserBaseException _ => Some BaseException
  | RuntimeError | AssertionError | AttributeError | TypeError
  | UserException _ => Some Exception
  end.

(** The method resolution order of a class, walked with fuel. *)
Fixpoint mro (fuel : nat) (c : exn_class) : list exn_class :=
  c :: match fuel with
       | O => []
       | S fuel' => match base c with
                    | Some b => mro fuel' b
                    | None => []
                    end
       end.

Definition issubclass (c d : exn_class) : bool :=
  existsb (fun k => if exn_class_eq_dec k d then true else false) (mro 2 c).

Record exn : Type := mkExn { exn_type : exn_class; exn_msg : string }.

Definition isinstance (e : exn) (c : exn_class) : bool :=
  issubclass (exn_type e) c.

(** ** Data model *)

(** Python and .NET objects are known by their identity. *)
Definition ref := nat.

(** An event loop: this one, or another loop of the process. *)
Inductive loop_ref : Type :=
| Self
| OtherLoop (r : ref).

(** What sits in the loop's ready queue. *)
Inductive handle : Type :=
| LoopSelfReading
| OtherHandle (r : ref).

(** An asynchronous-generator hook: a bound method of a loop, or a foreign
    callable. *)
Inductive hook_fn : Type :=
| AsyncgenFirstiterHook (l : loop_ref)
| AsyncgenFinalizerHook (l : loop_ref)
| ForeignHook (r : ref).

(** The pair [sys.get_asyncgen_hooks()] returns: (firstiter, finalizer). *)
Definition agen_hooks : Type := (option hook_fn * option hook_fn)%type.

(** A subscriber of [WinForms.Application.ApplicationExit]. *)
Inductive exit_handler : Type :=
| SelfExitHandler
| ForeignExitHandler (r : ref).

(** The attributes of [self].  An attribute that the constructor does not
    set ([app], [_old_agen_hooks], [task], [_inner_loop]) is an option whose
    [None] is "not set yet"; reading it then raises [AttributeError].
    [_inner_loop], once set, holds Python's [None] or a pair
    [(callback, args)]. *)
Record Loop : Type := mkLoop {
  _closed : bool;
  _stopping : bool;
  _thread_id : option nat;
  _debug : bool;
  _coroutine_origin_tracking_enabled : bool;
  _coroutine_origin_tracking_saved_depth : option nat;
  _ready : list handle;
  app : option ref;
  _old_agen_hooks : option agen_hooks;
  task : option ref;
  _inner_loop : option (option (ref * list ref))
}.

(** The interpreter-wide state the code reads and writes. *)
Record Process : Type := mkProcess {
  current_thread : nat;                     (* threading.get_ident() *)
  running_loop : option loop_ref;           (* events._get_running_loop() *)
  asyncgen_hooks : agen_hooks;              (* sys.get_asyncgen_hooks() *)
  coroutine_origin_tracking_depth : nat;    (* sys.get_coroutine_origin_tracking_depth() *)
  _is_exiting : ref -> bool;                (* app._is_exiting, per app object *)
  stderr : list exn                         (* what traceback.print_exc() printed *)
}.

(** The Winforms side: the subscribers of [ApplicationExit], the
    continuations waiting on a [Task.Delay] (delay in ms, delegate), and the
    identity of the next delegate to be created. *)
Record Host : Type := mkHost {
  application_exit : list exit_handler;
  delayed : list (nat * ref);
  next_delegate : ref
}.

Record State : Type := mkState {
  loop : Loop;
  proc : Process;
  host : Host
}.

(** *** Field updates *)

Definition with_loop (f : Loop -> Loop) (s : State) : State :=
  mkState (f (loop s)) (proc s) (host s).

Definition with_proc (f : Process -> Process) (s : State) : State :=
  mkState (loop s) (f (proc s)) (host s).

Definition with_host (f : Host -> Host) (s : State) : State :=
  mkState (loop s) (proc s) (f (host s)).

Definition upd_stopping (v : bool) (l : Loop) : Loop :=
  mkLoop (_closed l) v (_thread_id l) (_debug l)
         (_coroutine_origin_tracking_enabled l)
         (_coroutine_origin_tracking_saved_depth l)
         (_ready l) (app l) (_old_agen_hooks l) (task l) (_inner_loop l).

Definition upd_thread_id (v : option nat) (l : Loop) : Loop :=
  mkLoop (_closed l) (_stopping l) v (_debug l)
         (_coroutine_origin_tracking_enabled l)
         (_coroutine_origin_tracking_saved_depth l)
         (_ready l) (app l) (_old_agen_hooks l) (task l) (_inner_loop l).

Definition upd_tracking_enabled (v : bool) (l : Loop) : Loop :=
  mkLoop (_closed l) (_stopping l) (_thread_id l) (_debug l)
         v
         (_coroutine_origin_tracking_saved_depth l)
         (_ready l) (app l) (_old_agen_hooks l) (task l) (_inner_loop l).

Definition upd_tracking_saved_depth (v : option nat) (l : Loop) : Loop :=
  mkLoop (_closed l) (_stopping l) (_thread_id l) (_debug l)
         (_coroutine_origin_tracking_enabled l)
         v
         (_ready l) (app l) (_old_agen_hooks l) (task l) (_inner_loop l).

Definition upd_ready (v : list handle) (l : Loop) : Loop :=
  mkLoop (_closed l) (_stopping l) (_thread_id l) (_debug l)
         (_coroutine_origin_tracking_enabled l)
         (_coroutine_origin_tracking_saved_depth l)
         v (app l) (_old_agen_hooks l) (task l) (_inner_loop l).

Definition upd_app (v : option ref) (l : Loop) : Loop :=
  mkLoop (_closed l) (_stopping l) (_thread_id l) (_debug l)
         (_coroutine_origin_tracking_enabled l)
         (_coroutine_origin_tracking_saved_depth l)
         (_ready l) v (_old_agen_hooks l) (task l) (_inner_loop l).

Definition upd_old_agen_hooks (v : option agen_hooks) (l : Loop) : Loop :=
  mkLoop (_closed l) (_stopping l) (_thread_id l) (_debug l)
         (_coroutine_origin_tracking_enabled l)
         (_coroutine_origin_tracking_saved_depth l)
         (_ready l) (app l) v (task l) (_inner_loop l).

Definition upd_task (v : option ref) (l : Loop) : Loop :=
  mkLoop (_closed l) (_stopping l) (_thread_id l) (_debug l)
         (_coroutine_origin_tracking_enabled l)
         (_coroutine_origin_tracking_saved_depth l)
         (_ready l) (app l) (_old_agen_hooks l) v (_inner_loop l).

Definition upd_inner_loop (v : option (option (ref * list ref))) (l : Loop) : Loop :=
  mkLoop (_closed l) (_stopping l) (_thread_id l) (_debug l)
         (_coroutine_origin_tracking_enabled l)
         (_coroutine_origin_tracking_saved_depth l)
         (_ready l) (app l) (_old_agen_hooks l) (task l) v.

Definition upd_running_loop (v : option loop_ref) (p : Process) : Process :=
  mkProcess (current_thread p) v (asyncgen_hooks p)
            (coroutine_origin_tracking_depth p) (_is_exiting p) (stderr p).

Definition upd_asyncgen_hooks (v : agen_hooks) (p : Process) : Process :=
  mkProcess (current_thread p) (running_loop p) v
            (coroutine_origin_tracking_depth p) (_is_exiting p) (stderr p).

Definition upd_tracking_depth (v : nat) (p : Process) : Process :=
  mkProcess (current_thread p) (running_loop p) (asyncgen_hooks p)
            v (_is_exiting p) (stderr p).

Definition upd_stderr (v : list exn) (p : Process) : Process :=
  mkProcess (current_thread p) (running_loop p) (asyncgen_hooks p)
            (coroutine_origin_tracking_depth p) (_is_exiting p) v.

Definition upd_application_exit (v : list exit_handler) (h : Host) : Host :=
  mkHost v (delayed h) (next_delegate h).

Definition upd_delayed (v : list (nat * ref)) (h : Host) : Host :=
  mkHost (application_exit h) v (next_delegate h).

Definition upd_next_delegate (v : ref) (h : Host) : Host :=
  mkHost (application_exit h) (delayed h) v.

(** ** Computations *)

(** A Python call returns or raises; what it did to the state before it
    raised stays done. *)
Inductive result (A : Type) : Type :=
| Ok (a : A)
| Raise (e : exn).

Arguments Ok {A} a.
Arguments Raise {A} e.

(** Code of the application and of asyncio that the adapter calls without
    knowing it: it sees and changes the state, and returns or raises. *)
Definition ext_code : Type := State -> result unit * State.

(** What the adapter's own steps do, in the order they do it: a log kept
    beside the state for the statements about order.  No step reads it, and
    foreign code cannot reach it.  [EvInvoke] keeps the state the callback
    starts from. *)
Inductive event : Type :=
| EvStop
| EvRunOnce
| EvEnqueueTick (h : ref)
| EvCallSoon (h : handle)
| EvInvoke (callback : ref) (args : list ref) (seen : State).

Record World : Type := mkWorld {
  st : State;
  trace : list event
}.

Definition M (A : Type) : Type := World -> result A * World.

Definition ret {A} (a : A) : M A := fun w => (Ok a, w).

Definition bind {A B} (m : M A) (k : A -> M B) : M B :=
  fun w => match m w with
           | (Ok a, w') => k a w'
           | (Raise e, w') => (Raise e, w')
           end.

Definition raise {A} (c : exn_class) (msg : string) : M A :=
  fun w => (Raise (mkExn c msg), w).

Notation "x <- c ;; k" := (bind c (fun x => k))
  (at level 61, c at next level, right associativity).
Notation "c ;; k" := (bind c (fun _ => k))
  (at level 61, right associativity).

(** [try: body / except cls: handler]. *)
Definition try_except {A} (body : M A) (cls : exn_class) (handler : exn -> M A) : M A :=
  fun w => match body w with
           | (Ok a, w') => (Ok a, w')
           | (Raise e, w') =>
               if isinstance e cls then handler e w' else (Raise e, w')
           end.

Definition gets {A} (f : State -> A) : M A := fun w => (Ok (f (st w)), w).

Definition modify (f : State -> State) : M unit :=
  fun w => (Ok tt, mkWorld (f (st w)) (trace w)).

Definition emit (ev : event) : M unit :=
  fun w => (Ok tt, mkWorld (st w) (trace w ++ [ev])).

(** Reading an attribute that may not have been set yet. *)
Definition getattr {A} (name : string) (f : State -> option A) : M A :=
  v <- gets f ;;
  match v with
  | Some a => ret a
  | None => raise AttributeError name
  end.

(** Running unknown code: only the state is handed over. *)
Definition run_ext (c : ext_code) : M unit :=
  fun w => let (r, s') := c (st w) in (r, mkWorld s' (trace w)).

(** The state part of a computation, started with an empty trace. *)
Definition on_state {A} (m : M A) (s : State) : result A * State :=
  let (r, w') := m (mkWorld s []) in (r, st w').

(** ** What the class inherits from asyncio and uses from [sys] *)

Definition _check_closed : M unit :=
  c <- gets (fun s => _closed (loop s)) ;;
  if c then raise RuntimeError "Event loop is closed" else ret tt.

Definition is_running : M bool :=
  t <- gets (fun s => _thread_id (loop s)) ;;
  ret (match t with Some _ => true | None => false end).

Definition get_ident : M nat := gets (fun s => current_thread (proc s)).

Definition _check_thread : M unit :=
  t <- gets (fun s => _thread_id (loop s)) ;;
  match t with
  | None => ret tt
  | Some owner =>
      me <- get_ident ;;
      if Nat.eqb me owner then ret tt
      else raise RuntimeError
             "Non-thread-safe operation invoked on an event loop other than the current one"
  end.

Definition call_soon (h : handle) : M unit :=
  _check_closed ;;
  d <- gets (fun s => _debug (loop s)) ;;
  (if d then _check_thread else ret tt) ;;
  modify (with_loop (fun l => upd_ready (_ready l ++ [h]) l)) ;;
  emit (EvCallSoon h).

Definition stop : M unit :=
  modify (with_loop (upd_stopping true)) ;;
  emit EvStop.

Definition DEBUG_STACK_DEPTH : nat := 10.

Definition _set_coroutine_origin_tracking (enabled : bool) : M unit :=
  cur <- gets (fun s => _coroutine_origin_tracking_enabled (loop s)) ;;
  if Bool.eqb enabled cur then ret tt
  else
    (if enabled then
       d <- gets (fun s => coroutine_origin_tracking_depth (proc s)) ;;
       modify (with_loop (upd_tracking_saved_depth (Some d))) ;;
       modify (with_proc (upd_tracking_depth DEBUG_STACK_DEPTH))
     else
       saved <- gets (fun s => _coroutine_origin_tracking_saved_depth (loop s)) ;;
       match saved with
       | Some d => modify (with_proc (upd_tracking_depth d))
       | None => raise TypeError "an integer is required"
       end) ;;
    modify (with_loop (upd_tracking_enabled enabled)).

Definition get_asyncgen_hooks : M agen_hooks := gets (fun s => asyncgen_hooks (proc s)).

Definition set_asyncgen_hooks (h : agen_hooks) : M unit :=
  modify (with_proc (upd_asyncgen_hooks h)).

Definition _get_running_loop : M (option loop_ref) := gets (fun s => running_loop (proc s)).

Definition _set_running_loop (l : option loop_ref) : M unit :=
  modify (with_proc (upd_running_loop l)).

(** [traceback.print_exc()] inside an [except] block. *)
Definition print_exc (e : exn) : M unit :=
  modify (with_proc (fun p => upd_stderr (stderr p ++ [e]) p)).

(** ** The adapter *)

Section Adapter.

(** One non-blocking pass of the asyncio scheduler, and what a callable does
    when it is called with its arguments. *)
Variable _run_once : ext_code.
Variable call : ref -> list ref -> ext_code.

(** [callback( *args )]. *)
Definition invoke (callback : ref) (args : list ref) : M unit :=
  s <- gets (fun s => s) ;;
  emit (EvInvoke callback args s) ;;
  run_ext (call callback args).

(** [enqueue_tick] (lines 85-88): a new [Action[Task](self.tick)] is kept in
    [self.task] and continues a [Task.Delay(5)]. *)
Definition enqueue_tick : M unit :=
  n <- gets (fun s => next_delegate (host s)) ;;
  modify (with_host (upd_next_delegate (S n))) ;;
  modify (with_loop (upd_task (Some n))) ;;
  modify (with_host (fun h => upd_delayed (delayed h ++ [(5, n)]) h)) ;;
  emit (EvEnqueueTick n).

(** [start_inner_loop] (lines 101-103), with assertions enabled. *)
Definition start_inner_loop (callback : ref) (args : list ref) : M unit :=
  cur <- getattr "_inner_loop" (fun s => _inner_loop (loop s)) ;;
  match cur with
  | Some _ => raise AssertionError ""
  | None => modify (with_loop (upd_inner_loop (Some (Some (callback, args)))))
  end.

(** [winforms_application_exit] (lines 106-124); the handler ignores its
    two arguments. *)
Definition winforms_application_exit : M unit :=
  modify (with_loop (upd_stopping false)) ;;
  modify (with_loop (upd_thread_id None)) ;;
  _set_running_loop None ;;
  _set_coroutine_origin_tracking false ;;
  old <- getattr "_old_agen_hooks" (fun s => _old_agen_hooks (loop s)) ;;
  set_asyncgen_hooks old.

(** The [try] block of [run_once_recurring] (lines 137-152). *)
Definition run_once_recurring_body : M unit :=
  a <- getattr "app" (fun s => app (loop s)) ;;
  exiting <- gets (fun s => _is_exiting (proc s) a) ;;
  (if exiting then stop
   else emit EvRunOnce ;; run_ext _run_once) ;;
  enqueue_tick ;;
  call_soon LoopSelfReading ;;
  pending <- getattr "_inner_loop" (fun s => _inner_loop (loop s)) ;;
  match pending with
  | Some (callback, args) =>
      modify (with_loop (upd_inner_loop (Some None))) ;;
      invoke callback args
  | None => ret tt
  end.

(** [run_once_recurring] (lines 128-156): the block under
    [except BaseException: traceback.print_exc()]. *)
Definition run_once_recurring : M unit :=
  try_except run_once_recurring_body BaseException (fun e => print_exc e).

(** [tick] (lines 93-96): the dispatcher of [self.app] runs
    [run_once_recurring] on the GUI thread. *)
Definition tick : M unit :=
  _ <- getattr "app" (fun s => app (loop s)) ;;
  run_once_recurring.

(** *** The Winforms message loop

    [WinForms.Application.Run] returns when the application exits.  Until
    then the host lets [timer_firings] delays elapse: each takes the oldest
    waiting continuation, if there is one, and runs it; what a continuation
    raises stays in its .NET task.  On exit the host raises
    [ApplicationExit]: the subscribers run in the order they subscribed. *)

Definition fire_delayed : M unit :=
  waiting <- gets (fun s => delayed (host s)) ;;
  match waiting with
  | [] => ret tt
  | _ :: rest =>
      modify (with_host (upd_delayed rest)) ;;
      (fun w => (Ok tt, snd (tick w)))
  end.

Definition run_exit_handler (h : exit_handler) : M unit :=
  match h with
  | SelfExitHandler => winforms_application_exit
  | ForeignExitHandler r => invoke r []
  end.

Fixpoint run_exit_handlers (hs : list exit_handler) : M unit :=
  match hs with
  | [] => ret tt
  | h :: rest => run_exit_handler h ;; run_exit_handlers rest
  end.

Fixpoint application_run (timer_firings : nat) : M unit :=
  match timer_firings with
  | O =>
      hs <- gets (fun s => application_exit (host s)) ;;
      run_exit_handlers hs
  | S n => fire_delayed ;; application_run n
  end.

(** [run_forever] (lines 15-83).  [timer_firings] is how many delays the
    host lets elapse before the application exits. *)
Definition run_forever (the_app : ref) (timer_firings : nat) : M unit :=
  call_soon LoopSelfReading ;;
  modify (with_loop (upd_app (Some the_app))) ;;
  _check_closed ;;
  running <- is_running ;;
  (if running then raise RuntimeError "This event loop is already running"
   else ret tt) ;;
  other <- _get_running_loop ;;
  match other with
  | Some _ =>
      raise RuntimeError "Cannot run the event loop while another loop is running"
  | None => ret tt
  end ;;
  dbg <- gets (fun s => _debug (loop s)) ;;
  _set_coroutine_origin_tracking dbg ;;
  me <- get_ident ;;
  modify (with_loop (upd_thread_id (Some me))) ;;
  old <- get_asyncgen_hooks ;;
  modify (with_loop (upd_old_agen_hooks (Some old))) ;;
  set_asyncgen_hooks (Some (AsyncgenFirstiterHook Self),
                      Some (AsyncgenFinalizerHook Self)) ;;
  _set_running_loop (Some Self) ;;
  modify (with_host (fun h => upd_application_exit (application_exit h ++ [SelfExitHandler]) h)) ;;
  enqueue_tick ;;
  modify (with_loop (upd_inner_loop (Some None))) ;;
  _ <- getattr "app" (fun s => app (loop s)) ;;
  application_run timer_firings.

End Adapter.

(** ** Vocabulary of the statements *)

(** The state once [enqueue_tick] has run: a new delegate is in [self.task]
    and waits on a 5 ms delay. *)
Definition arm_tick (s : State) : State :=
  let n := next_delegate (host s) in
  with_host (fun h => upd_delayed (delayed h ++ [(5, n)]) h)
    (with_loop (upd_task (Some n)) (with_host (upd_next_delegate (S n)) s)).

(** The state once [traceback.print_exc()] has printed [e]. *)
Definition log_exc (e : exn) (s : State) : State :=
  with_proc (fun p => upd_stderr (stderr p ++ [e]) p) s.

(** The state [run_forever] leaves when it refuses to start an open loop:
    the self-reading callback is queued and [self.app] is overwritten. *)
Definition queued_and_remembered (the_app : ref) (s : State) : State :=
  with_loop (upd_app (Some the_app))
    (with_loop (fun l => upd_ready (_ready l ++ [LoopSelfReading]) l) s).

(** Everything the setup in [run_forever] writes after its checks. *)
Definition setup_state (s : State) :=
  (_thread_id (loop s), _old_agen_hooks (loop s),
   _coroutine_origin_tracking_enabled (loop s),
   _coroutine_origin_tracking_saved_depth (loop s),
   task (loop s), _inner_loop (loop s),
   running_loop (proc s), asyncgen_hooks (proc s),
   coroutine_origin_tracking_depth (proc s),
   host s).

(** The preconditions of [run_forever], and their violation. *)
Definition can_start (s : State) : Prop :=
  _closed (loop s) = false /\ _thread_id (loop s) = None /\
  running_loop (proc s) = None.

Definition start_refused (s : State) : Prop :=
  _closed (loop s) = true \/ _thread_id (loop s) <> None \/
  running_loop (proc s) <> None.

(** asyncio keeps a saved depth whenever origin tracking is on. *)
Definition tracking_consistent (l : Loop) : Prop :=
  _coroutine_origin_tracking_enabled l = true ->
  _coroutine_origin_tracking_saved_depth l <> None.

(** The loop after its cleanup: not running, not stopping, and no running
    loop recorded for the thread. *)
Definition stopped (s : State) : Prop :=
  _thread_id (loop s) = None /\ _stopping (loop s) = false /\
  running_loop (proc s) = None /\
  _coroutine_origin_tracking_enabled (loop s) = false.

(** What the adapter saves for its own cleanup, and who is subscribed to
    the exit event. *)
Definition bookkeeping (s : State) :=
  (_old_agen_hooks (loop s),
   _coroutine_origin_tracking_enabled (loop s),
   _coroutine_origin_tracking_saved_depth (loop s),
   application_exit (host s)).

(** Foreign code that leaves the adapter's bookkeeping alone. *)
Definition keeps_bookkeeping (c : ext_code) : Prop :=
  forall s, bookkeeping (snd (c s)) = bookkeeping s.

Definition preserves {A} (m : M A) : Prop :=
  forall w, bookkeeping (st (snd (m w))) = bookkeeping (st w).

(** The first step of a tick is the stop or the scheduler pass. *)
Definition is_first_step (ev : event) : Prop := ev = EvStop \/ ev = EvRunOnce.

(** What a flushed callback finds: the tick [h] waits on its delay and the
    request slot is empty again. *)
Definition armed_and_cleared (h : ref) (seen : State) : Prop :=
  In (5, h) (delayed (host seen)) /\ task (loop seen) = Some h /\
  _inner_loop (loop seen) = Some None.

(** The events one run of [run_once_recurring] can add to the trace. *)
Inductive tick_events : list event -> Prop :=
| te_nothing : tick_events []
| te_pass_failed : tick_events [EvRunOnce]
| te_armed first h :
    is_first_step first -> tick_events [first; EvEnqueueTick h]
| te_posted first h :
    is_first_step first ->
    tick_events [first; EvEnqueueTick h; EvCallSoon LoopSelfReading]
| te_flushed first h cb args seen :
    is_first_step first -> armed_and_cleared h seen ->
    tick_events [first; EvEnqueueTick h; EvCallSoon LoopSelfReading;
                 EvInvoke cb args seen].

Section Pieces.

Variable _run_once : ext_code.
Variable call : ref -> list ref -> ext_code.

(** Lines 149-152 of the source, and lines 146-152. *)
Definition flush_inner_loop : M unit :=
  pending <- getattr "_inner_loop" (fun s => _inner_loop (loop s)) ;;
  match pending with
  | Some (callback, args) =>
      modify (with_loop (upd_inner_loop (Some None))) ;;
      invoke call callback args
  | None => ret tt
  end.

Definition rearm_and_flush : M unit :=
  enqueue_tick ;; call_soon LoopSelfReading ;; flush_inner_loop.

(** Lines 137-140. *)
Definition stop_or_pass (a : ref) : M unit :=
  exiting <- gets (fun s => _is_exiting (proc s) a) ;;
  if exiting then stop else emit EvRunOnce ;; run_ext _run_once.

End Pieces.

(** ** Vocabulary of the further properties *)

(** When [call_soon] refuses: the loop is closed, or it is in debug mode and
    the caller is not on the loop's thread. *)
Definition call_soon_refuses (s : State) : bool :=
  _closed (loop s) ||
  (_debug (loop s) &&
   match _thread_id (loop s) with
   | Some owner => negb (Nat.eqb (current_thread (proc s)) owner)
   | None => false
   end).

(** The state once [call_soon] has queued the self-reading callback. *)
Definition post_self_reading (s : State) : State :=
  with_loop (fun l => upd_ready (_ready l ++ [LoopSelfReading]) l) s.

(** The state a flushed callback starts from, [s] being the state the first
    step of the tick left. *)
Definition seen_after (s : State) : State :=
  with_loop (upd_inner_loop (Some None)) (post_self_reading (arm_tick s)).

(** The state the first step of a tick leaves for the application [a]. *)
Definition after_first_step (_run_once : ext_code) (a : ref) (s : State) : State :=
  if _is_exiting (proc s) a then with_loop (upd_stopping true) s
  else snd (_run_once s).

(** The waiting continuations and the application. *)
Definition ticks_and_app (s : State) := (delayed (host s), app (loop s)).

(** Everything but the five things the exit handler resets. *)
Definition untouched_by_exit (s : State) :=
  (_closed (loop s), _debug (loop s), _ready (loop s), app (loop s),
   _old_agen_hooks (loop s), task (loop s), _inner_loop (loop s),
   current_thread (proc s), _is_exiting (proc s), stderr (proc s), host s).

(** A computation, or foreign code, that leaves a part of the state as it
    found it. *)
Definition keeps {A B} (proj : State -> B) (m : M A) : Prop :=
  forall w, proj (st (snd (m w))) = proj (st w).

Definition ext_keeps {B} (proj : State -> B) (c : ext_code) : Prop :=
  forall s, proj (snd (c s)) = proj s.

(** What must outlast a run for the loop to start again. *)
Definition restart_view (s : State) := (_closed (loop s), bookkeeping s).

(** ** Sample states *)

Module Sample.

(** A loop that was created and never started, in a process whose
    asynchronous-generator finalizer is a foreign hook. *)
Definition created : State :=
  mkState
    (mkLoop false false None false false None [] None None None None)
    (mkProcess 7 None (None, Some (ForeignHook 3)) 0 (fun _ => false) [])
    (mkHost [] [] 100).

(** The same loop while the application [1] runs on thread 7. *)
Definition running : State :=
  mkState
    (mkLoop false false (Some 7) false false None [LoopSelfReading]
            (Some 1) (Some (None, Some (ForeignHook 3))) (Some 100) (Some None))
    (mkProcess 7 (Some Self)
               (Some (AsyncgenFirstiterHook Self), Some (AsyncgenFinalizerHook Self))
               0 (fun _ => false) [])
    (mkHost [SelfExitHandler] [] 101).

(** ... with a request for an inner loop pending, *)
Definition requested : State :=
  with_loop (upd_inner_loop (Some (Some (20, [21; 22])))) running.

(** ... and once the application has said it is exiting. *)
Definition exiting : State :=
  mkState (loop running)
          (mkProcess 7 (Some Self) (asyncgen_hooks (proc running)) 0
                     (fun _ => true) [])
          (host running).

(** A scheduler pass with nothing to do, and one that is interrupted. *)
Definition idle_pass : ext_code := fun s => (Ok tt, s).

Definition interrupted_pass : ext_code :=
  fun s => (Raise (mkExn KeyboardInterrupt "interrupted"), s).

(** Callable 20 asks for another inner loop (callable 30); every other
    callable returns at once. *)
Definition callables (callback : ref) (args : list ref) : ext_code :=
  if Nat.eqb callback 20 then on_state (start_inner_loop 30 args)
  else fun s => (Ok tt, s).

(** The running loop after [close()], with the request still pending. *)
Definition closed_with_request : State :=
  with_loop (fun l =>
    mkLoop true (_stopping l) (_thread_id l) (_debug l)
           (_coroutine_origin_tracking_enabled l)
           (_coroutine_origin_tracking_saved_depth l)
           (_ready l) (app l) (_old_agen_hooks l) (task l) (_inner_loop l))
    requested.

(** The running loop with the tick of startup waiting on its delay. *)
Definition ticking : State :=
  with_host (upd_delayed [(5, 100)]) running.

(** Callables that all fail. *)
Definition failing_callables (callback : ref) (args : list ref) : ext_code :=
  fun s => (Raise (mkExn (UserException "DialogError") "failed"), s).

End Sample.

(** * Properties *)

(** ** Exceptions and the monad *)

Lemma isinstance_BaseException (e : exn) : isinstance e BaseException = true.
Proof. destruct e as [c msg]; destruct c; reflexivity. Qed.

(** The class in an [except] clause matters: [except Exception] would let an
    interrupt through. *)
Lemma except_Exception_lets_interrupt_through (w : World) (h : exn -> M unit) :
  try_except (raise KeyboardInterrupt "") Exception h w
  = (Raise (mkExn KeyboardInterrupt ""), w).
Proof. reflexivity. Qed.

Lemma bind_ok {A B} (m : M A) (k : A -> M B) w a w1 :
  m w = (Ok a, w1) -> bind m k w = k a w1.
Proof. intros H; unfold bind; rewrite H; reflexivity. Qed.

Lemma bind_raise {A B} (m : M A) (k : A -> M B) w e w1 :
  m w = (Raise e, w1) -> bind m k w = (Raise e, w1).
Proof. intros H; unfold bind; rewrite H; reflexivity. Qed.

(** ** The steps of a tick *)

Lemma enqueue_tick_run w :
  enqueue_tick w
  = (Ok tt, mkWorld (arm_tick (st w))
                    (trace w ++ [EvEnqueueTick (next_delegate (host (st w)))])).
Proof. reflexivity. Qed.

Lemma call_soon_cases h w :
  call_soon h w
  = (Ok tt, mkWorld (with_loop (fun l => upd_ready (_ready l ++ [h]) l) (st w))
                    (trace w ++ [EvCallSoon h]))
  \/ exists msg, call_soon h w = (Raise (mkExn RuntimeError msg), w).
Proof.
  unfold call_soon, _check_closed, _check_thread, get_ident,
    bind, gets, modify, emit, ret, raise; simpl.
  destruct (_closed (loop (st w))); simpl; [right; eauto|].
  destruct (_debug (loop (st w))); simpl; [|left; reflexivity].
  destruct (_thread_id (loop (st w))) as [owner|]; simpl; [|left; reflexivity].
  destruct (Nat.eqb _ owner); simpl; [left; reflexivity | right; eauto].
Qed.

Section Ticks.

Variable _run_once : ext_code.
Variable call : ref -> list ref -> ext_code.

Lemma flush_inner_loop_cases w :
  match _inner_loop (loop (st w)) with
  | None =>
      flush_inner_loop call w = (Raise (mkExn AttributeError "_inner_loop"), w)
  | Some None => flush_inner_loop call w = (Ok tt, w)
  | Some (Some (cb, args)) =>
      let seen := with_loop (upd_inner_loop (Some None)) (st w) in
      flush_inner_loop call w
      = (fst (call cb args seen),
         mkWorld (snd (call cb args seen)) (trace w ++ [EvInvoke cb args seen]))
  end.
Proof.
  unfold flush_inner_loop, getattr, invoke, run_ext,
    bind, gets, modify, emit, ret, raise; simpl.
  destruct (_inner_loop (loop (st w))) as [[[cb args]|]|]; simpl; try reflexivity.
  destruct (call cb args _); reflexivity.
Qed.

(** Re-arming comes first, whatever follows. *)
Lemma rearm_and_flush_events w :
  let h := next_delegate (host (st w)) in
  exists more,
    trace (snd (rearm_and_flush call w)) = trace w ++ EvEnqueueTick h :: more /\
    (more = [] \/ more = [EvCallSoon LoopSelfReading] \/
     exists cb args seen,
       more = [EvCallSoon LoopSelfReading; EvInvoke cb args seen] /\
       armed_and_cleared h seen).
Proof.
  intros h. unfold rearm_and_flush.
  rewrite (bind_ok _ _ _ _ _ (enqueue_tick_run w)).
  destruct (call_soon_cases LoopSelfReading
              (mkWorld (arm_tick (st w)) (trace w ++ [EvEnqueueTick h])))
    as [Hc | [msg Hc]].
  - rewrite (bind_ok _ _ _ _ _ Hc).
    match goal with |- context [flush_inner_loop call ?w1] =>
      pose proof (flush_inner_loop_cases w1) as Hf; set (w3 := w1) in *
    end.
    destruct (_inner_loop (loop (st w3))) as [[[cb args]|]|] eqn:Ei.
    + cbv zeta in Hf. rewrite Hf. simpl.
      eexists [EvCallSoon LoopSelfReading; EvInvoke cb args _].
      split; [rewrite <- !app_assoc; reflexivity|].
      right; right. do 3 eexists. split; [reflexivity|].
      repeat split; simpl; auto. apply in_or_app; right; left; reflexivity.
    + rewrite Hf. simpl. exists [EvCallSoon LoopSelfReading].
      split; [rewrite <- app_assoc; reflexivity | auto].
    + rewrite Hf. simpl. exists [EvCallSoon LoopSelfReading].
      split; [rewrite <- app_assoc; reflexivity | auto].
  - rewrite (bind_raise _ _ _ _ _ Hc). simpl. exists []. split; auto.
Qed.

(** Without a pending request nothing foreign runs after the re-arm: the new
    tick is still waiting when [rearm_and_flush] is over. *)
Lemma rearm_and_flush_quiet w :
  (forall req, _inner_loop (loop (st w)) <> Some (Some req)) ->
  let h := next_delegate (host (st w)) in
  let s' := st (snd (rearm_and_flush call w)) in
  In (5, h) (delayed (host s')) /\ task (loop s') = Some h /\
  _stopping (loop s') = _stopping (loop (st w)).
Proof.
  intros Hq h. unfold rearm_and_flush.
  rewrite (bind_ok _ _ _ _ _ (enqueue_tick_run w)).
  assert (Hin : In (5, h) (delayed (host (arm_tick (st w))))).
  { simpl. apply in_or_app; right; left; reflexivity. }
  destruct (call_soon_cases LoopSelfReading
              (mkWorld (arm_tick (st w)) (trace w ++ [EvEnqueueTick h])))
    as [Hc | [msg Hc]].
  - rewrite (bind_ok _ _ _ _ _ Hc).
    match goal with |- context [flush_inner_loop call ?w1] =>
      pose proof (flush_inner_loop_cases w1) as Hf; set (w3 := w1) in *
    end.
    assert (Ei : _inner_loop (loop (st w3)) = _inner_loop (loop (st w)))
      by reflexivity.
    destruct (_inner_loop (loop (st w3))) as [[req|]|].
    + exfalso. apply (Hq req). symmetry; exact Ei.
    + rewrite Hf. simpl. auto.
    + rewrite Hf. simpl. auto.
  - rewrite (bind_raise _ _ _ _ _ Hc). simpl. auto.
Qed.

Lemma body_unfold w a :
  app (loop (st w)) = Some a ->
  run_once_recurring_body _run_once call w
  = (stop_or_pass _run_once a ;; rearm_and_flush call) w.
Proof.
  intros Ha. unfold run_once_recurring_body, getattr.
  unfold bind at 1. unfold bind at 1. unfold gets at 1. rewrite Ha.
  reflexivity.
Qed.

Lemma body_without_app w :
  app (loop (st w)) = None ->
  run_once_recurring_body _run_once call w
  = (Raise (mkExn AttributeError "app"), w).
Proof.
  intros Ha. unfold run_once_recurring_body, getattr.
  unfold bind at 1. unfold bind at 1. unfold gets at 1. rewrite Ha.
  reflexivity.
Qed.

Lemma stop_or_pass_cases w a :
  (_is_exiting (proc (st w)) a = true /\
   stop_or_pass _run_once a w
   = (Ok tt, mkWorld (with_loop (upd_stopping true) (st w)) (trace w ++ [EvStop])))
  \/
  (_is_exiting (proc (st w)) a = false /\
   stop_or_pass _run_once a w
   = (fst (_run_once (st w)),
      mkWorld (snd (_run_once (st w))) (trace w ++ [EvRunOnce]))).
Proof.
  unfold stop_or_pass, stop, run_ext, bind, gets, modify, emit; simpl.
  destruct (_is_exiting (proc (st w)) a); [left | right]; split; try reflexivity.
  destruct (_run_once (st w)); reflexivity.
Qed.

(** The handler of [run_once_recurring] leaves the result normal and the
    trace alone. *)
Lemma run_once_recurring_handled w :
  run_once_recurring _run_once call w
  = match run_once_recurring_body _run_once call w with
    | (Ok _, w1) => (Ok tt, w1)
    | (Raise e, w1) => (Ok tt, mkWorld (log_exc e (st w1)) (trace w1))
    end.
Proof.
  unfold run_once_recurring, try_except.
  destruct (run_once_recurring_body _run_once call w) as [[[]|e] w1].
  - reflexivity.
  - rewrite isinstance_BaseException. reflexivity.
Qed.

Lemma run_once_recurring_trace w :
  trace (snd (run_once_recurring _run_once call w))
  = trace (snd (run_once_recurring_body _run_once call w)).
Proof.
  rewrite run_once_recurring_handled.
  destruct (run_once_recurring_body _run_once call w) as [[?|e] w1]; reflexivity.
Qed.

Lemma run_once_recurring_events w :
  exists evs,
    trace (snd (run_once_recurring _run_once call w)) = trace w ++ evs /\
    tick_events evs.
Proof.
  rewrite run_once_recurring_trace.
  destruct (app (loop (st w))) as [a|] eqn:Ha.
  2:{ rewrite (body_without_app _ Ha). exists []. simpl.
      rewrite app_nil_r. split; [reflexivity | constructor]. }
  rewrite (body_unfold _ _ Ha).
  destruct (stop_or_pass_cases w a) as [[_ Hs] | [_ Hs]].
  - rewrite (bind_ok _ _ _ _ _ Hs).
    match goal with |- context [rearm_and_flush call ?w1] =>
      destruct (rearm_and_flush_events w1) as (more & Ht & Hm) end.
    simpl in Ht. rewrite Ht. rewrite <- app_assoc. simpl.
    eexists; split; [reflexivity|].
    destruct Hm as [-> | [-> | (cb & args & seen & -> & Hseen)]].
    + apply te_armed; left; reflexivity.
    + apply te_posted; left; reflexivity.
    + apply te_flushed; [left; reflexivity | exact Hseen].
  - destruct (_run_once (st w)) as [[[]|e] s1] eqn:Hp; simpl in Hs.
    + rewrite (bind_ok _ _ _ _ _ Hs).
      match goal with |- context [rearm_and_flush call ?w1] =>
        destruct (rearm_and_flush_events w1) as (more & Ht & Hm) end.
      simpl in Ht. rewrite Ht. rewrite <- app_assoc. simpl.
      eexists; split; [reflexivity|].
      destruct Hm as [-> | [-> | (cb & args & seen & -> & Hseen)]].
      * apply te_armed; right; reflexivity.
      * apply te_posted; right; reflexivity.
      * apply te_flushed; [right; reflexivity | exact Hseen].
    + rewrite (bind_raise _ _ _ _ _ Hs). simpl.
      exists [EvRunOnce]. split; [reflexivity | constructor].
Qed.

(** When the pass leaves a request pending on an open loop, the tick arms
    the next tick, posts the self-reading callback and then runs the
    callback. *)
Lemma pending_request_is_flushed w a s1 cb args :
  app (loop (st w)) = Some a ->
  _is_exiting (proc (st w)) a = false ->
  _run_once (st w) = (Ok tt, s1) ->
  _closed (loop s1) = false ->
  _debug (loop s1) = false ->
  _inner_loop (loop s1) = Some (Some (cb, args)) ->
  let h := next_delegate (host s1) in
  let seen :=
    with_loop (upd_inner_loop (Some None))
      (with_loop (fun l => upd_ready (_ready l ++ [LoopSelfReading]) l)
         (arm_tick s1)) in
  trace (snd (run_once_recurring _run_once call w))
  = trace w ++ [EvRunOnce; EvEnqueueTick h; EvCallSoon LoopSelfReading;
                EvInvoke cb args seen] /\
  st (snd (run_once_recurring_body _run_once call w)) = snd (call cb args seen).
Proof.
  intros Ha Hex Hp Hopen Hdbg Hreq h seen.
  rewrite run_once_recurring_trace, (body_unfold _ _ Ha).
  destruct (stop_or_pass_cases w a) as [[Hyes _] | [_ Hs]]; [congruence|].
  rewrite Hp in Hs. simpl in Hs.
  rewrite (bind_ok _ _ _ _ _ Hs). unfold rearm_and_flush.
  rewrite (bind_ok _ _ _ _ _ (enqueue_tick_run _)).
  match goal with |- context [bind (call_soon ?x) ?k ?w1] =>
    assert (Hc : call_soon x w1
                 = (Ok tt, mkWorld (with_loop (fun l => upd_ready (_ready l ++ [x]) l) (st w1))
                                   (trace w1 ++ [EvCallSoon x])))
  end.
  { unfold call_soon, _check_closed, bind, gets, modify, emit, ret; simpl.
    rewrite Hopen; simpl. rewrite Hdbg; reflexivity. }
  rewrite (bind_ok _ _ _ _ _ Hc).
  match goal with |- context [flush_inner_loop call ?w1] =>
    pose proof (flush_inner_loop_cases w1) as Hf; set (w3 := w1) in *
  end.
  assert (Hreq3 : _inner_loop (loop (st w3)) = Some (Some (cb, args)))
    by exact Hreq.
  rewrite Hreq3 in Hf. cbv zeta in Hf. rewrite Hf. simpl.
  split; [| reflexivity].
  rewrite <- !app_assoc. reflexivity.
Qed.

End Ticks.

(** Where a callback can stand among the events of a tick. *)
Lemma tick_events_invoke pre cb args seen post :
  tick_events (pre ++ EvInvoke cb args seen :: post) ->
  exists first h,
    pre = [first; EvEnqueueTick h; EvCallSoon LoopSelfReading] /\
    post = [] /\ armed_and_cleared h seen.
Proof.
  intros H. inversion H as [ Heq | Heq | first h Hf Heq | first h Hf Heq
                           | first h cb' args' seen' Hf Hs Heq ].
  - destruct pre; discriminate.
  - destruct pre as [|? [|? ?]]; discriminate.
  - destruct Hf as [-> | ->];
      destruct pre as [|? [|? [|? ?]]]; discriminate.
  - destruct Hf as [-> | ->];
      destruct pre as [|? [|? [|? [|? ?]]]]; discriminate.
  - destruct pre as [|e1 [|e2 [|e3 [|e4 [|? ?]]]]]; try discriminate;
      try (destruct Hf as [-> | ->]; discriminate).
    injection Heq. intros. subst.
    do 2 eexists. split; [reflexivity|]. split; [reflexivity | exact Hs].
Qed.

(** ** Claims about the tick *)

(** C1 (the code does otherwise).  The claim: when the application is
    exiting, [run_once_recurring] stops the loop and does not arm another
    tick.  The code stops the loop and then arms the next tick all the same:
    [enqueue_tick] stands after the [if], not in its [else].  Whenever the
    exiting flag is set, [stop] is followed by an [enqueue_tick]; and when no
    inner-loop request is pending, the loop is stopping and the new tick is
    in [self.task] and waits on its delay when [run_once_recurring] returns. *)
Theorem exiting_tick_stops_and_rearms _run_once call w a :
  app (loop (st w)) = Some a ->
  _is_exiting (proc (st w)) a = true ->
  let h := next_delegate (host (st w)) in
  let w' := snd (run_once_recurring _run_once call w) in
  fst (run_once_recurring _run_once call w) = Ok tt /\
  (exists more, trace w' = trace w ++ EvStop :: EvEnqueueTick h :: more) /\
  ((forall req, _inner_loop (loop (st w)) <> Some (Some req)) ->
   _stopping (loop (st w')) = true /\
   In (5, h) (delayed (host (st w'))) /\
   task (loop (st w')) = Some h).
Proof.
  intros Ha Hex h w'. subst w'.
  destruct (stop_or_pass_cases _run_once w a) as [[_ Hs] | [Hne _]];
    [| congruence].
  pose proof (run_once_recurring_trace _run_once call w) as Ht.
  rewrite (run_once_recurring_handled _run_once call w) in *.
  rewrite (body_unfold _run_once call _ _ Ha) in *.
  rewrite (bind_ok _ _ _ _ _ Hs) in *.
  set (w1 := mkWorld (with_loop (upd_stopping true) (st w)) (trace w ++ [EvStop])) in *.
  destruct (rearm_and_flush_events call w1) as (more & Hm & _).
  pose proof (rearm_and_flush_quiet call w1) as Hq.
  destruct (rearm_and_flush call w1) as [[[]|e] w2]; simpl in *.
  - split; [reflexivity|]. split.
    + exists more. rewrite Hm, <- app_assoc. reflexivity.
    + intros Hno. destruct (Hq Hno) as (Hin & Htask & Hstop). auto.
  - split; [reflexivity|]. split.
    + exists more. rewrite Hm, <- app_assoc. reflexivity.
    + intros Hno. destruct (Hq Hno) as (Hin & Htask & Hstop). auto.
Qed.

Lemma exiting_tick_stops_and_rearms_witness :
  app (loop Sample.exiting) = Some 1 /\
  _is_exiting (proc Sample.exiting) 1 = true /\
  let w' := snd (run_once_recurring Sample.idle_pass Sample.callables
                   (mkWorld Sample.exiting [])) in
  fst (run_once_recurring Sample.idle_pass Sample.callables
         (mkWorld Sample.exiting [])) = Ok tt /\
  (exists more, trace w' = [] ++ EvStop :: EvEnqueueTick 101 :: more) /\
  ((forall req, _inner_loop (loop Sample.exiting) <> Some (Some req)) ->
   _stopping (loop (st w')) = true /\
   In (5, 101) (delayed (host (st w'))) /\
   task (loop (st w')) = Some 101).
Proof.
  split; [reflexivity|]. split; [reflexivity|].
  exact (exiting_tick_stops_and_rearms Sample.idle_pass Sample.callables
           (mkWorld Sample.exiting []) 1 eq_refl eq_refl).
Defined.

(** C3.  In every run of [run_once_recurring], a callback is invoked only
    after [enqueue_tick] has armed the next tick: among the events of the
    run an [enqueue_tick] comes before the invocation, and in the state the
    callback starts from that tick is in [self.task] and waits on its
    delay. *)
Theorem tick_armed_before_callback _run_once call w pre cb args seen post :
  trace (snd (run_once_recurring _run_once call w))
  = trace w ++ pre ++ EvInvoke cb args seen :: post ->
  exists h,
    In (EvEnqueueTick h) pre /\
    In (5, h) (delayed (host seen)) /\
    task (loop seen) = Some h.
Proof.
  intros Ht.
  destruct (run_once_recurring_events _run_once call w) as (evs & He & Hshape).
  rewrite Ht in He. apply app_inv_head in He. subst evs.
  apply tick_events_invoke in Hshape.
  destruct Hshape as (first & h & -> & _ & Hin & Htask & _).
  exists h. split; [right; left; reflexivity | auto].
Qed.

(** C4 (the code does otherwise).  The claim: a tick whose scheduler pass
    raises still arms the next tick.  In the code the exception leaves the
    [try] block before [enqueue_tick] is reached: it is printed, and
    [run_once_recurring] returns with no event but the pass, the delayed
    continuations and [self.task] as the pass left them. *)
Theorem failed_pass_arms_no_tick _run_once call w a e s1 :
  app (loop (st w)) = Some a ->
  _is_exiting (proc (st w)) a = false ->
  _run_once (st w) = (Raise e, s1) ->
  let w' := snd (run_once_recurring _run_once call w) in
  run_once_recurring _run_once call w
  = (Ok tt, mkWorld (log_exc e s1) (trace w ++ [EvRunOnce])) /\
  delayed (host (st w')) = delayed (host s1) /\
  task (loop (st w')) = task (loop s1).
Proof.
  intros Ha Hex Hp w'. subst w'.
  destruct (stop_or_pass_cases _run_once w a) as [[Hyes _] | [_ Hs]];
    [congruence|].
  rewrite Hp in Hs. simpl in Hs.
  rewrite (run_once_recurring_handled _run_once call w).
  rewrite (body_unfold _run_once call _ _ Ha).
  rewrite (bind_raise _ _ _ _ _ Hs). simpl. auto.
Qed.

Lemma failed_pass_arms_no_tick_witness :
  let w := mkWorld Sample.running [] in
  let e := mkExn KeyboardInterrupt "interrupted" in
  let w' := snd (run_once_recurring Sample.interrupted_pass Sample.callables w) in
  (app (loop (st w)) = Some 1 /\
   _is_exiting (proc (st w)) 1 = false /\
   Sample.interrupted_pass (st w) = (Raise e, Sample.running)) /\
  run_once_recurring Sample.interrupted_pass Sample.callables w
  = (Ok tt, mkWorld (log_exc e Sample.running) [EvRunOnce]) /\
  delayed (host (st w')) = [] /\
  task (loop (st w')) = Some 100.
Proof.
  split; [repeat split|].
  exact (failed_pass_arms_no_tick Sample.interrupted_pass Sample.callables
           (mkWorld Sample.running []) 1
           (mkExn KeyboardInterrupt "interrupted") Sample.running
           eq_refl eq_refl eq_refl).
Defined.

(** C5.  [run_once_recurring] always returns normally.  Whatever one of its
    steps raises (reading the exiting flag, the stop or the scheduler pass,
    the re-arm, the re-post of the self-reading callback, the flushed
    callback) is caught, printed with [traceback.print_exc] and dropped. *)
Theorem run_once_recurring_never_raises _run_once call w :
  exists w',
    run_once_recurring _run_once call w = (Ok tt, w') /\
    match run_once_recurring_body _run_once call w with
    | (Ok _, w1) => w' = w1
    | (Raise e, w1) =>
        w' = mkWorld (log_exc e (st w1)) (trace w1) /\
        stderr (proc (st w')) = stderr (proc (st w1)) ++ [e]
    end.
Proof.
  rewrite run_once_recurring_handled.
  destruct (run_once_recurring_body _run_once call w) as [[[]|e] w1];
    eexists; split; try reflexivity.
  split; reflexivity.
Qed.

(** C10.  The handler of [run_once_recurring] is [except BaseException]:
    an exception of any class raised during the tick, the
    interpreter-control exceptions [KeyboardInterrupt] and [SystemExit]
    among them, matches it, is printed and goes no further. *)
Theorem run_once_recurring_catches_BaseException _run_once call w e w1 :
  run_once_recurring_body _run_once call w = (Raise e, w1) ->
  isinstance e BaseException = true /\
  run_once_recurring _run_once call w
  = (Ok tt, mkWorld (log_exc e (st w1)) (trace w1)).
Proof.
  intros Hb. split; [apply isinstance_BaseException|].
  rewrite run_once_recurring_handled, Hb. reflexivity.
Qed.

Lemma run_once_recurring_catches_BaseException_witness :
  let w := mkWorld Sample.running [] in
  let e := mkExn KeyboardInterrupt "interrupted" in
  run_once_recurring_body Sample.interrupted_pass Sample.callables w
  = (Raise e, mkWorld Sample.running [EvRunOnce]) /\
  isinstance e Exception = false /\
  isinstance e BaseException = true /\
  run_once_recurring Sample.interrupted_pass Sample.callables w
  = (Ok tt, mkWorld (log_exc e Sample.running) [EvRunOnce]).
Proof.
  split; [reflexivity|]. split; [reflexivity|].
  exact (run_once_recurring_catches_BaseException
           Sample.interrupted_pass Sample.callables
           (mkWorld Sample.running [])
           (mkExn KeyboardInterrupt "interrupted")
           (mkWorld Sample.running [EvRunOnce]) eq_refl).
Defined.

Lemma tick_armed_before_callback_witness :
  let w := mkWorld Sample.requested [] in
  let seen :=
    with_loop (upd_inner_loop (Some None))
      (with_loop (fun l => upd_ready (_ready l ++ [LoopSelfReading]) l)
         (arm_tick Sample.requested)) in
  let pre := [EvRunOnce; EvEnqueueTick 101; EvCallSoon LoopSelfReading] in
  trace (snd (run_once_recurring Sample.idle_pass Sample.callables w))
  = trace w ++ pre ++ EvInvoke 20 [21; 22] seen :: [] /\
  exists h,
    In (EvEnqueueTick h) pre /\
    In (5, h) (delayed (host seen)) /\
    task (loop seen) = Some h.
Proof.
  split; [reflexivity|].
  exact (tick_armed_before_callback Sample.idle_pass Sample.callables
           (mkWorld Sample.requested []) _ 20 [21; 22] _ [] eq_refl).
Defined.

(** ** Claims about the inner-loop request *)

Lemma start_inner_loop_run callback args w cur :
  _inner_loop (loop (st w)) = Some cur ->
  start_inner_loop callback args w
  = match cur with
    | Some _ => (Raise (mkExn AssertionError ""), w)
    | None =>
        (Ok tt,
         mkWorld (with_loop (upd_inner_loop (Some (Some (callback, args)))) (st w))
                 (trace w))
    end.
Proof.
  intros H. unfold start_inner_loop, getattr, bind, gets. rewrite H. simpl.
  destruct cur; reflexivity.
Qed.

(** C6.  With a request already pending, [start_inner_loop] fails its
    assertion and leaves the pending request as it is, neither queueing nor
    overwriting; with the slot empty it stores [(callback, args)] and
    returns, and no callback is invoked (the trace is unchanged). *)
Theorem start_inner_loop_spec callback args w cur :
  _inner_loop (loop (st w)) = Some cur ->
  match cur with
  | Some pending =>
      exists e,
        start_inner_loop callback args w = (Raise e, w) /\
        exn_type e = AssertionError /\
        _inner_loop (loop (st w)) = Some (Some pending)
  | None =>
      exists w',
        start_inner_loop callback args w = (Ok tt, w') /\
        _inner_loop (loop (st w')) = Some (Some (callback, args)) /\
        st w' = with_loop (upd_inner_loop (Some (Some (callback, args)))) (st w) /\
        trace w' = trace w
  end.
Proof.
  intros H. rewrite (start_inner_loop_run callback args w cur H).
  destruct cur as [pending|].
  - eexists. split; [reflexivity|]. split; [reflexivity | exact H].
  - eexists. split; [reflexivity|]. repeat split.
Qed.

Lemma start_inner_loop_spec_witness :
  (_inner_loop (loop Sample.requested) = Some (Some (20, [21; 22])) /\
   exists e,
     start_inner_loop 30 [] (mkWorld Sample.requested [])
     = (Raise e, mkWorld Sample.requested []) /\
     exn_type e = AssertionError /\
     _inner_loop (loop Sample.requested) = Some (Some (20, [21; 22])))
  /\
  (_inner_loop (loop Sample.running) = Some None /\
   exists w',
     start_inner_loop 30 [] (mkWorld Sample.running []) = (Ok tt, w') /\
     _inner_loop (loop (st w')) = Some (Some (30, [])) /\
     st w' = with_loop (upd_inner_loop (Some (Some (30, [])))) Sample.running /\
     trace w' = []).
Proof.
  split; (split; [reflexivity|]).
  - exact (start_inner_loop_spec 30 [] (mkWorld Sample.requested [])
             (Some (20, [21; 22])) eq_refl).
  - exact (start_inner_loop_spec 30 [] (mkWorld Sample.running []) None eq_refl).
Defined.

(** C9.  When [run_once_recurring] flushes a pending request, the slot is
    already empty in the state the callback starts from; so a callback that
    calls [start_inner_loop] there passes the assertion and registers its
    request.  The slot is one attribute holding [None] or one pair: it never
    holds more than one request. *)
Theorem request_cleared_before_callback _run_once call w pre cb args seen post :
  trace (snd (run_once_recurring _run_once call w))
  = trace w ++ pre ++ EvInvoke cb args seen :: post ->
  _inner_loop (loop seen) = Some None /\
  forall cb2 args2,
    on_state (start_inner_loop cb2 args2) seen
    = (Ok tt, with_loop (upd_inner_loop (Some (Some (cb2, args2)))) seen).
Proof.
  intros Ht.
  destruct (run_once_recurring_events _run_once call w) as (evs & He & Hshape).
  rewrite Ht in He. apply app_inv_head in He. subst evs.
  apply tick_events_invoke in Hshape.
  destruct Hshape as (first & h & _ & _ & _ & _ & Hslot).
  split; [exact Hslot|].
  intros cb2 args2. unfold on_state.
  rewrite (start_inner_loop_run cb2 args2 (mkWorld seen []) None Hslot).
  reflexivity.
Qed.

Lemma request_cleared_before_callback_witness :
  let w := mkWorld Sample.requested [] in
  let seen :=
    with_loop (upd_inner_loop (Some None))
      (with_loop (fun l => upd_ready (_ready l ++ [LoopSelfReading]) l)
         (arm_tick Sample.requested)) in
  let pre := [EvRunOnce; EvEnqueueTick 101; EvCallSoon LoopSelfReading] in
  let w' := snd (run_once_recurring Sample.idle_pass Sample.callables w) in
  (trace w' = trace w ++ pre ++ EvInvoke 20 [21; 22] seen :: [] /\
   fst (run_once_recurring Sample.idle_pass Sample.callables w) = Ok tt /\
   _inner_loop (loop (st w')) = Some (Some (30, [21; 22])) /\
   stderr (proc (st w')) = []) /\
  _inner_loop (loop seen) = Some None /\
  forall cb2 args2,
    on_state (start_inner_loop cb2 args2) seen
    = (Ok tt, with_loop (upd_inner_loop (Some (Some (cb2, args2)))) seen).
Proof.
  split; [repeat split|].
  exact (request_cleared_before_callback Sample.idle_pass Sample.callables
           (mkWorld Sample.requested []) _ 20 [21; 22] _ [] eq_refl).
Defined.

(** ** Shutdown *)

(** The cleanup assigns the same values whenever it runs. *)
Lemma winforms_application_exit_again w :
  winforms_application_exit (snd (winforms_application_exit w))
  = (fst (winforms_application_exit w), snd (winforms_application_exit w)).
Proof.
  destruct w as [[l p h] t].
  destruct l as [cl sp ti db te ts rd ap oh tk il].
  destruct te, ts, oh; reflexivity.
Qed.

Lemma winforms_application_exit_run w h0 :
  _old_agen_hooks (loop (st w)) = Some h0 ->
  tracking_consistent (loop (st w)) ->
  exists w',
    winforms_application_exit w = (Ok tt, w') /\
    asyncgen_hooks (proc (st w')) = h0 /\
    stopped (st w') /\
    trace w' = trace w.
Proof.
  destruct w as [[l p h] t].
  destruct l as [cl sp ti db te ts rd ap oh tk il].
  unfold tracking_consistent; simpl. intros -> Hc.
  destruct te.
  - destruct ts as [d|]; [| exfalso; apply Hc; reflexivity].
    eexists; split; [reflexivity|]. repeat split.
  - eexists; split; [reflexivity|]. repeat split.
Qed.

(** C8.  Once the exit handler has run, running it again changes nothing:
    from the state the first run left, the second run returns normally and
    leaves the state of the adapter, of the process and of the host, and the
    trace, exactly as they were; that state is the stopped one. *)
Theorem winforms_application_exit_idempotent w w' :
  winforms_application_exit w = (Ok tt, w') ->
  winforms_application_exit w' = (Ok tt, w') /\ stopped (st w').
Proof.
  intros H. pose proof (winforms_application_exit_again w) as Hagain.
  rewrite H in Hagain. simpl in Hagain. split; [exact Hagain|].
  destruct w as [[l p h] t].
  destruct l as [cl sp ti db te ts rd ap oh tk il].
  destruct te, ts, oh; try discriminate H;
    injection H as <-; repeat split.
Qed.

Lemma winforms_application_exit_idempotent_witness :
  let w' :=
    mkWorld
      (mkState
         (upd_thread_id None (loop Sample.running))
         (upd_asyncgen_hooks (None, Some (ForeignHook 3))
            (upd_running_loop None (proc Sample.running)))
         (host Sample.running)) [] in
  winforms_application_exit (mkWorld Sample.running []) = (Ok tt, w') /\
  winforms_application_exit w' = (Ok tt, w') /\ stopped (st w').
Proof.
  split; [reflexivity|].
  exact (winforms_application_exit_idempotent
           (mkWorld Sample.running []) _ eq_refl).
Defined.

(** ** What the ticks leave alone *)

Lemma preserves_ret {A} (a : A) : preserves (ret a).
Proof. intros w; reflexivity. Qed.

Lemma preserves_raise {A} c msg : preserves (@raise A c msg).
Proof. intros w; reflexivity. Qed.

Lemma preserves_gets {A} (f : State -> A) : preserves (gets f).
Proof. intros w; reflexivity. Qed.

Lemma preserves_emit ev : preserves (emit ev).
Proof. intros w; reflexivity. Qed.

Lemma preserves_modify f :
  (forall s, bookkeeping (f s) = bookkeeping s) -> preserves (modify f).
Proof. intros Hf w; apply Hf. Qed.

Lemma preserves_run_ext c : keeps_bookkeeping c -> preserves (run_ext c).
Proof.
  intros Hc w. unfold run_ext. specialize (Hc (st w)).
  destruct (c (st w)); exact Hc.
Qed.

Lemma preserves_bind {A B} (m : M A) (k : A -> M B) :
  preserves m -> (forall a, preserves (k a)) -> preserves (bind m k).
Proof.
  intros Hm Hk w. unfold bind. specialize (Hm w).
  destruct (m w) as [[a|e] w1]; simpl in *.
  - rewrite (Hk a w1). exact Hm.
  - exact Hm.
Qed.

Lemma preserves_try_except {A} (body : M A) cls handler :
  preserves body -> (forall e, preserves (handler e)) ->
  preserves (try_except body cls handler).
Proof.
  intros Hb Hh w. unfold try_except. specialize (Hb w).
  destruct (body w) as [[a|e] w1]; simpl in *; [exact Hb|].
  destruct (isinstance e cls); [| exact Hb].
  rewrite (Hh e w1). exact Hb.
Qed.

Lemma preserves_getattr {A} name (f : State -> option A) :
  preserves (getattr name f).
Proof.
  intros w. unfold getattr, bind, gets. simpl.
  destruct (f (st w)); reflexivity.
Qed.

Create HintDb preserves.

#[local] Hint Resolve preserves_ret preserves_raise preserves_gets
  preserves_emit preserves_run_ext preserves_getattr : preserves.

(** Splits a computation into its steps; a step that updates a field is
    checked by computing the bookkeeping on both sides. *)
Ltac preserve :=
  repeat first
    [ apply preserves_bind; [| intro]
    | apply preserves_try_except; [| intro]
    | apply preserves_modify; intros ?; reflexivity
    | solve [auto with preserves]
    | match goal with
      | |- preserves (if ?b then _ else _) => destruct b
      | |- preserves (match ?x with _ => _ end) => destruct x
      | |- preserves (let (_, _) := ?x in _) => destruct x
      end ].

Lemma preserves_call_soon h : preserves (call_soon h).
Proof. unfold call_soon, _check_closed, _check_thread, get_ident. preserve. Qed.

Lemma preserves_enqueue_tick : preserves enqueue_tick.
Proof. unfold enqueue_tick. preserve. Qed.

(** With no continuation waiting, an elapsed delay runs nothing: the
    scheduler gets no further pass. *)
Lemma nothing_waiting_nothing_fires _run_once call w :
  delayed (host (st w)) = [] ->
  fire_delayed _run_once call w = (Ok tt, w).
Proof.
  intros H. unfold fire_delayed, bind, gets. simpl. rewrite H. reflexivity.
Qed.

Section Frames.

Variable _run_once : ext_code.
Variable call : ref -> list ref -> ext_code.

Hypothesis pass_keeps : keeps_bookkeeping _run_once.
Hypothesis call_keeps : forall cb args, keeps_bookkeeping (call cb args).

Lemma preserves_run_once_recurring :
  preserves (run_once_recurring _run_once call).
Proof.
  pose proof preserves_call_soon. pose proof preserves_enqueue_tick.
  unfold run_once_recurring, run_once_recurring_body, stop, print_exc, invoke.
  preserve.
Qed.

Lemma fire_delayed_run w :
  exists w1,
    fire_delayed _run_once call w = (Ok tt, w1) /\
    bookkeeping (st w1) = bookkeeping (st w).
Proof.
  unfold fire_delayed, bind, gets, modify, ret; simpl.
  destruct (delayed (host (st w))) as [|d rest]; simpl.
  - eexists; split; reflexivity.
  - eexists; split; [reflexivity|].
    assert (Ht : preserves (tick _run_once call)).
    { unfold tick. apply preserves_bind; [apply preserves_getattr|].
      intro. apply preserves_run_once_recurring. }
    rewrite Ht. reflexivity.
Qed.

(** However many delays elapse, the exit event finds what startup saved. *)
Lemma application_run_cleans_up n : forall w h0 te ts,
  bookkeeping (st w) = (Some h0, te, ts, [SelfExitHandler]) ->
  (te = true -> ts <> None) ->
  exists w',
    application_run _run_once call n w = (Ok tt, w') /\
    asyncgen_hooks (proc (st w')) = h0 /\
    stopped (st w').
Proof.
  induction n as [|n IH]; intros w h0 te ts Hb Hc.
  - unfold bookkeeping in Hb. injection Hb as Hold Hte Hts Hsub.
    destruct (winforms_application_exit_run w h0 Hold) as (w' & Hrun & Hh & Hs & _).
    { unfold tracking_consistent. rewrite Hte, Hts. exact Hc. }
    exists w'. split; [| auto].
    simpl. unfold bind at 1. unfold gets at 1. rewrite Hsub. simpl.
    unfold bind at 1. rewrite Hrun. reflexivity.
  - destruct (fire_delayed_run w) as (w1 & Hf & Hb1).
    simpl. rewrite (bind_ok _ _ _ _ _ Hf).
    apply (IH w1 h0 te ts); [congruence | exact Hc].
Qed.

End Frames.

(** ** Startup *)

Section Startup.

Variable _run_once : ext_code.
Variable call : ref -> list ref -> ext_code.

(** A loop that may start gets as far as [Application.Run], with the hooks
    of the process saved and its own handler subscribed last. *)
Lemma run_forever_starts the_app n w :
  can_start (st w) ->
  tracking_consistent (loop (st w)) ->
  exists w1 te ts,
    run_forever _run_once call the_app n w
    = application_run _run_once call n w1 /\
    bookkeeping (st w1)
    = (Some (asyncgen_hooks (proc (st w))), te, ts,
       application_exit (host (st w)) ++ [SelfExitHandler]) /\
    (te = true -> ts <> None).
Proof.
  destruct w as [[l p h] t].
  destruct l as [cl sp ti db te ts rd ap oh tk il].
  unfold can_start, tracking_consistent; simpl.
  intros (-> & -> & Hrun) Hc.
  destruct p as [me rl hooks depth ex err]; simpl in Hrun; subst rl.
  unfold run_forever, call_soon, _check_closed, _check_thread, get_ident,
    is_running, _get_running_loop, _set_running_loop,
    _set_coroutine_origin_tracking, get_asyncgen_hooks, set_asyncgen_hooks,
    enqueue_tick, getattr, bind, gets, modify, emit, ret, raise.
  destruct db, te; simpl.
  - destruct ts as [d|]; [| exfalso; apply Hc; reflexivity].
    eexists _, true, (Some d).
    split; [reflexivity|]. split; [reflexivity | discriminate].
  - eexists _, true, (Some depth).
    split; [reflexivity|]. split; [reflexivity | discriminate].
  - destruct ts as [d|]; [| exfalso; apply Hc; reflexivity].
    simpl. eexists _, false, _.
    split; [reflexivity|]. split; [reflexivity | discriminate].
  - eexists _, false, _.
    split; [reflexivity|]. split; [reflexivity | discriminate].
Qed.

(** What [run_forever] does when it may not start. *)
Lemma run_forever_refused the_app n w :
  start_refused (st w) ->
  exists msg,
    (run_forever _run_once call the_app n w = (Raise (mkExn RuntimeError msg), w)
     \/
     (_closed (loop (st w)) = false /\
      run_forever _run_once call the_app n w
      = (Raise (mkExn RuntimeError msg),
         mkWorld (queued_and_remembered the_app (st w))
                 (trace w ++ [EvCallSoon LoopSelfReading])))).
Proof.
  destruct w as [[l p h] t].
  destruct l as [cl sp ti db te ts rd ap oh tk il].
  destruct p as [me rl hooks depth ex err].
  unfold start_refused; simpl. intros Hr.
  destruct cl.
  { eexists; left; reflexivity. }
  destruct ti as [owner|].
  - destruct db.
    + destruct (Nat.eqb me owner) eqn:Eo.
      * eexists; right; split; [reflexivity|].
        unfold run_forever, call_soon, _check_closed, _check_thread, get_ident,
          is_running, bind, gets, modify, emit, ret, raise; simpl.
        rewrite Eo. reflexivity.
      * eexists; left.
        unfold run_forever, call_soon, _check_closed, _check_thread, get_ident,
          is_running, bind, gets, modify, emit, ret, raise; simpl.
        rewrite Eo. reflexivity.
    + eexists; right; split; reflexivity.
  - destruct rl as [other|].
    + destruct db; eexists; right; split; reflexivity.
    + exfalso. destruct Hr as [Hr | [Hr | Hr]];
        [discriminate | apply Hr; reflexivity | apply Hr; reflexivity].
Qed.

End Startup.

Lemma sample_callables_keep cb args : keeps_bookkeeping (Sample.callables cb args).
Proof.
  intros s. unfold Sample.callables.
  destruct (Nat.eqb cb 20); [| reflexivity].
  unfold on_state, start_inner_loop, getattr, bind, gets, modify, ret, raise; simpl.
  destruct (_inner_loop (loop s)) as [[req|]|]; reflexivity.
Qed.

Lemma sample_idle_pass_keeps : keeps_bookkeeping Sample.idle_pass.
Proof. intros s; reflexivity. Qed.

(** ** Claims about startup and shutdown *)

(** C2 (amended).  The claim: a refused [run_forever] raises before any
    state is changed.  A closed loop is indeed left exactly as it was.  But
    [run_forever] calls [call_soon] and stores [self.app] before it checks
    whether the loop is running: when the loop is open and already running,
    or another loop is running, the [RuntimeError] is raised with the
    self-reading callback queued and [self.app] overwritten (unless
    [call_soon] itself refused the call).  In every case nothing of the
    setup proper is written. *)
Theorem run_forever_refuses_before_setup _run_once call the_app n w :
  start_refused (st w) ->
  exists e w',
    run_forever _run_once call the_app n w = (Raise e, w') /\
    exn_type e = RuntimeError /\
    (w' = w \/
     w' = mkWorld (queued_and_remembered the_app (st w))
                  (trace w ++ [EvCallSoon LoopSelfReading])) /\
    (_closed (loop (st w)) = true -> w' = w) /\
    setup_state (st w') = setup_state (st w).
Proof.
  intros Hr.
  destruct (run_forever_refused _run_once call the_app n w Hr)
    as (msg & [Hrun | (Hopen & Hrun)]).
  - exists (mkExn RuntimeError msg), w. repeat split; auto.
  - eexists _, _. split; [exact Hrun|]. split; [reflexivity|].
    split; [right; reflexivity|]. split; [congruence | reflexivity].
Qed.

Lemma run_forever_refuses_before_setup_witness :
  start_refused Sample.running /\
  exists e w',
    run_forever Sample.idle_pass Sample.callables 2 0 (mkWorld Sample.running [])
    = (Raise e, w') /\
    exn_type e = RuntimeError /\
    (w' = mkWorld Sample.running [] \/
     w' = mkWorld (queued_and_remembered 2 Sample.running)
                  ([] ++ [EvCallSoon LoopSelfReading])) /\
    (_closed (loop Sample.running) = true -> w' = mkWorld Sample.running []) /\
    setup_state (st w') = setup_state Sample.running.
Proof.
  assert (H : start_refused Sample.running)
    by (right; left; discriminate).
  split; [exact H|].
  exact (run_forever_refuses_before_setup Sample.idle_pass Sample.callables
           2 0 (mkWorld Sample.running []) H).
Defined.

(** C2, as stated, fails: started a second time while it is running, the
    loop raises, but by then its ready queue has grown and [self.app] names
    the second application. *)
Lemma run_forever_refusal_changes_state :
  start_refused Sample.running /\
  exists e w',
    run_forever Sample.idle_pass Sample.callables 2 0 (mkWorld Sample.running [])
    = (Raise e, w') /\
    _ready (loop (st w')) = [LoopSelfReading; LoopSelfReading] /\
    _ready (loop Sample.running) = [LoopSelfReading] /\
    app (loop (st w')) = Some 2 /\
    app (loop Sample.running) = Some 1 /\
    st w' <> Sample.running.
Proof.
  split; [right; left; discriminate|].
  eexists _, _. split; [reflexivity|]. repeat split.
  intros H. apply (f_equal (fun s => app (loop s))) in H. discriminate H.
Qed.

(** C7.  Start the adapter on a loop that may start, let the host fire any
    number of ticks (the scheduler pass and the callbacks leaving the
    adapter's saved values and the exit subscription alone), and let the
    application exit: when the exit handler has run, the
    asynchronous-generator hooks of the process are the ones that were
    installed before startup, the thread id and the running-loop record are
    cleared, and the loop is neither running nor stopping. *)
Theorem exit_after_startup_restores _run_once call the_app n w :
  can_start (st w) ->
  tracking_consistent (loop (st w)) ->
  application_exit (host (st w)) = [] ->
  keeps_bookkeeping _run_once ->
  (forall cb args, keeps_bookkeeping (call cb args)) ->
  exists w',
    run_forever _run_once call the_app n w = (Ok tt, w') /\
    asyncgen_hooks (proc (st w')) = asyncgen_hooks (proc (st w)) /\
    stopped (st w').
Proof.
  intros Hstart Htrack Hsub Hpass Hcall.
  destruct (run_forever_starts _run_once call the_app n w
              Hstart Htrack) as (w1 & te & ts & Hrun & Hbook & Hcons).
  rewrite Hsub in Hbook. simpl in Hbook.
  destruct (application_run_cleans_up _run_once call Hpass Hcall n
              w1 _ te ts Hbook Hcons) as (w' & Happ & Hhooks & Hstopped).
  exists w'. rewrite Hrun. auto.
Qed.

Lemma exit_after_startup_restores_witness :
  can_start Sample.created /\
  tracking_consistent (loop Sample.created) /\
  application_exit (host Sample.created) = [] /\
  exists w',
    run_forever Sample.idle_pass Sample.callables 1 3 (mkWorld Sample.created [])
    = (Ok tt, w') /\
    asyncgen_hooks (proc (st w')) = (None, Some (ForeignHook 3)) /\
    stopped (st w').
Proof.
  assert (Hs : can_start Sample.created) by (repeat split).
  assert (Ht : tracking_consistent (loop Sample.created))
    by (intros H; discriminate H).
  split; [exact Hs|]. split; [exact Ht|]. split; [reflexivity|].
  exact (exit_after_startup_restores Sample.idle_pass Sample.callables 1 3
           (mkWorld Sample.created []) Hs Ht eq_refl
           sample_idle_pass_keeps sample_callables_keep).
Defined.

(** * Further properties *)

(** ** Parts of the state that a computation keeps *)

Section Keeps.

Context {B : Type} (proj : State -> B).

Lemma keeps_ret {A} (a : A) : keeps proj (ret a).
Proof. intros w; reflexivity. Qed.

Lemma keeps_raise {A} c msg : keeps proj (@raise A c msg).
Proof. intros w; reflexivity. Qed.

Lemma keeps_gets {A} (f : State -> A) : keeps proj (gets f).
Proof. intros w; reflexivity. Qed.

Lemma keeps_emit ev : keeps proj (emit ev).
Proof. intros w; reflexivity. Qed.

Lemma keeps_modify f : (forall s, proj (f s) = proj s) -> keeps proj (modify f).
Proof. intros Hf w; apply Hf. Qed.

Lemma keeps_run_ext c : ext_keeps proj c -> keeps proj (run_ext c).
Proof.
  intros Hc w. unfold run_ext. specialize (Hc (st w)).
  destruct (c (st w)); exact Hc.
Qed.

Lemma keeps_bind {A C} (m : M A) (k : A -> M C) :
  keeps proj m -> (forall a, keeps proj (k a)) -> keeps proj (bind m k).
Proof.
  intros Hm Hk w. unfold bind. specialize (Hm w).
  destruct (m w) as [[a|e] w1]; simpl in *.
  - rewrite (Hk a w1). exact Hm.
  - exact Hm.
Qed.

Lemma keeps_getattr {A} name (f : State -> option A) : keeps proj (getattr name f).
Proof.
  intros w. unfold getattr, bind, gets. simpl.
  destruct (f (st w)); reflexivity.
Qed.

End Keeps.

Ltac keep :=
  repeat first
    [ apply keeps_bind; [| intro]
    | apply keeps_modify; intros ?; reflexivity
    | apply keeps_ret | apply keeps_raise | apply keeps_gets
    | apply keeps_emit | apply keeps_getattr
    | apply keeps_run_ext; solve [auto]
    | match goal with
      | |- keeps _ (if ?b then _ else _) => destruct b
      | |- keeps _ (match ?x with _ => _ end) => destruct x
      end ].

Lemma call_soon_keeps_ticks h : keeps ticks_and_app (call_soon h).
Proof. unfold call_soon, _check_closed, _check_thread, get_ident. keep. Qed.

Lemma exit_keeps_ticks : keeps ticks_and_app winforms_application_exit.
Proof.
  unfold winforms_application_exit, _set_running_loop,
    _set_coroutine_origin_tracking, set_asyncgen_hooks.
  keep.
Qed.

(** ** [call_soon], accepted or refused *)

Lemma call_soon_accepted h w :
  call_soon_refuses (st w) = false ->
  call_soon h w
  = (Ok tt, mkWorld (with_loop (fun l => upd_ready (_ready l ++ [h]) l) (st w))
                    (trace w ++ [EvCallSoon h])).
Proof.
  unfold call_soon_refuses, call_soon, _check_closed, _check_thread, get_ident,
    bind, gets, modify, emit, ret, raise; simpl.
  destruct (_closed (loop (st w))); simpl; [discriminate|].
  destruct (_debug (loop (st w))); simpl; [| reflexivity].
  destruct (_thread_id (loop (st w))) as [owner|]; simpl; [| reflexivity].
  destruct (Nat.eqb _ owner); simpl; [reflexivity | discriminate].
Qed.

Lemma call_soon_refused h w :
  call_soon_refuses (st w) = true ->
  exists msg, call_soon h w = (Raise (mkExn RuntimeError msg), w).
Proof.
  unfold call_soon_refuses, call_soon, _check_closed, _check_thread, get_ident,
    bind, gets, modify, emit, ret, raise; simpl.
  destruct (_closed (loop (st w))); simpl; [eauto|].
  destruct (_debug (loop (st w))); simpl; [| discriminate].
  destruct (_thread_id (loop (st w))) as [owner|]; simpl; [| discriminate].
  destruct (Nat.eqb _ owner); simpl; [discriminate | eauto].
Qed.

Section More.

Variable _run_once : ext_code.
Variable call : ref -> list ref -> ext_code.

(** The first step of a tick, in one equation. *)
Lemma stop_or_pass_run w a :
  stop_or_pass _run_once a w
  = (if _is_exiting (proc (st w)) a then Ok tt else fst (_run_once (st w)),
     mkWorld (after_first_step _run_once a (st w))
             (trace w ++ [if _is_exiting (proc (st w)) a then EvStop else EvRunOnce])).
Proof.
  unfold after_first_step.
  destruct (stop_or_pass_cases _run_once w a) as [[-> ->] | [-> ->]]; reflexivity.
Qed.

(** The second half of a tick, refused or accepted by [call_soon]. *)
Lemma rearm_and_flush_run w :
  let h := next_delegate (host (st w)) in
  if call_soon_refuses (st w) then
    exists msg,
      rearm_and_flush call w
      = (Raise (mkExn RuntimeError msg),
         mkWorld (arm_tick (st w)) (trace w ++ [EvEnqueueTick h]))
  else
    rearm_and_flush call w
    = flush_inner_loop call
        (mkWorld (post_self_reading (arm_tick (st w)))
                 (trace w ++ [EvEnqueueTick h; EvCallSoon LoopSelfReading])).
Proof.
  intros h. unfold rearm_and_flush.
  rewrite (bind_ok _ _ _ _ _ (enqueue_tick_run w)).
  assert (Hr : call_soon_refuses (arm_tick (st w)) = call_soon_refuses (st w))
    by reflexivity.
  destruct (call_soon_refuses (st w)) eqn:Erefuse.
  - destruct (call_soon_refused LoopSelfReading
                (mkWorld (arm_tick (st w)) (trace w ++ [EvEnqueueTick h])) Hr)
      as [msg Hc].
    exists msg. rewrite (bind_raise _ _ _ _ _ Hc). reflexivity.
  - rewrite (bind_ok _ _ _ _ _
               (call_soon_accepted LoopSelfReading
                  (mkWorld (arm_tick (st w)) (trace w ++ [EvEnqueueTick h])) Hr)).
    simpl. rewrite <- app_assoc. reflexivity.
Qed.


(** One tick whose first step returns, in full. *)
Lemma run_once_recurring_run w a :
  app (loop (st w)) = Some a ->
  (_is_exiting (proc (st w)) a = true \/ fst (_run_once (st w)) = Ok tt) ->
  let s1 := after_first_step _run_once a (st w) in
  let h := next_delegate (host s1) in
  let first := if _is_exiting (proc (st w)) a then EvStop else EvRunOnce in
  if call_soon_refuses s1 then
    exists msg,
      run_once_recurring _run_once call w
      = (Ok tt, mkWorld (log_exc (mkExn RuntimeError msg) (arm_tick s1))
                        (trace w ++ [first; EvEnqueueTick h]))
  else
    match _inner_loop (loop s1) with
    | None =>
        run_once_recurring _run_once call w
        = (Ok tt,
           mkWorld (log_exc (mkExn AttributeError "_inner_loop")
                            (post_self_reading (arm_tick s1)))
                   (trace w ++ [first; EvEnqueueTick h; EvCallSoon LoopSelfReading]))
    | Some None =>
        run_once_recurring _run_once call w
        = (Ok tt,
           mkWorld (post_self_reading (arm_tick s1))
                   (trace w ++ [first; EvEnqueueTick h; EvCallSoon LoopSelfReading]))
    | Some (Some (cb, args)) =>
        let r := call cb args (seen_after s1) in
        run_once_recurring _run_once call w
        = (Ok tt,
           mkWorld (match fst r with
                    | Ok _ => snd r
                    | Raise e => log_exc e (snd r)
                    end)
                   (trace w ++ [first; EvEnqueueTick h; EvCallSoon LoopSelfReading;
                                EvInvoke cb args (seen_after s1)]))
    end.
Proof.
  intros Ha Hfirst s1 h first.
  rewrite (run_once_recurring_handled _run_once call w).
  rewrite (body_unfold _run_once call _ _ Ha).
  assert (Hs : stop_or_pass _run_once a w
               = (Ok tt, mkWorld s1 (trace w ++ [first]))).
  { rewrite stop_or_pass_run. subst s1 first.
    destruct (_is_exiting (proc (st w)) a); [reflexivity|].
    destruct Hfirst as [Hf | Hf]; [discriminate | rewrite Hf; reflexivity]. }
  rewrite (bind_ok _ _ _ _ _ Hs).
  pose proof (rearm_and_flush_run (mkWorld s1 (trace w ++ [first]))) as Hr.
  cbv zeta in Hr. simpl st in Hr. simpl trace in Hr. fold h in Hr.
  destruct (call_soon_refuses s1).
  - destruct Hr as [msg Hr]. exists msg. rewrite Hr.
    rewrite <- app_assoc. reflexivity.
  - rewrite Hr. clear Hr.
    match goal with |- context [flush_inner_loop call ?w3] =>
      pose proof (flush_inner_loop_cases call w3) as Hf; set (w3' := w3) in *
    end.
    assert (Hslot : _inner_loop (loop (st w3')) = _inner_loop (loop s1))
      by reflexivity.
    rewrite Hslot in Hf.
    destruct (_inner_loop (loop s1)) as [[[cb args]|]|].
    + cbv zeta in Hf. rewrite Hf. subst w3'. simpl.
      fold (seen_after s1).
      destruct (call cb args (seen_after s1)) as [[[]|e] s2]; simpl;
        rewrite <- !app_assoc; reflexivity.
    + rewrite Hf. subst w3'. simpl. rewrite <- !app_assoc. reflexivity.
    + rewrite Hf. subst w3'. simpl. rewrite <- !app_assoc. reflexivity.
Qed.


(** Which callback a tick runs, if it runs one. *)
Lemma run_once_recurring_invokes w pre cb args seen post :
  trace (snd (run_once_recurring _run_once call w))
  = trace w ++ pre ++ EvInvoke cb args seen :: post ->
  exists a,
    app (loop (st w)) = Some a /\
    (_is_exiting (proc (st w)) a = true \/ fst (_run_once (st w)) = Ok tt) /\
    call_soon_refuses (after_first_step _run_once a (st w)) = false /\
    _inner_loop (loop (after_first_step _run_once a (st w))) = Some (Some (cb, args)) /\
    seen = seen_after (after_first_step _run_once a (st w)) /\
    pre = [if _is_exiting (proc (st w)) a then EvStop else EvRunOnce;
           EvEnqueueTick (next_delegate (host (after_first_step _run_once a (st w))));
           EvCallSoon LoopSelfReading] /\
    post = [].
Proof.
  intros Ht.
  destruct (app (loop (st w))) as [a|] eqn:Ha.
  2:{ rewrite run_once_recurring_trace, (body_without_app _ _ _ Ha) in Ht.
      simpl in Ht. rewrite <- (app_nil_r (trace w)) in Ht at 1.
      apply app_inv_head in Ht. destruct pre; discriminate. }
  exists a. split; [reflexivity|].
  assert (Hfirst : _is_exiting (proc (st w)) a = true \/ fst (_run_once (st w)) = Ok tt
                   \/ exists e, _is_exiting (proc (st w)) a = false /\
                                fst (_run_once (st w)) = Raise e).
  { destruct (_is_exiting (proc (st w)) a); [left; reflexivity|].
    destruct (fst (_run_once (st w))) as [[]|e]; [right; left; reflexivity|].
    right; right; eauto. }
  destruct Hfirst as [Hf | [Hf | (e & Hne & Hf)]].
  3:{ exfalso.
      rewrite run_once_recurring_trace, (body_unfold _ _ _ _ Ha) in Ht.
      pose proof (stop_or_pass_run w a) as Hs. rewrite Hne, Hf in Hs.
      rewrite (bind_raise _ _ _ _ _ Hs) in Ht. simpl in Ht.
      apply app_inv_head in Ht. destruct pre as [|? [|? ?]]; discriminate. }
  all: assert (Hfirst : _is_exiting (proc (st w)) a = true \/
                        fst (_run_once (st w)) = Ok tt) by tauto;
    split; [exact Hfirst|];
    pose proof (run_once_recurring_run w a Ha Hfirst) as Hrun;
    cbv zeta in Hrun;
    set (s1 := after_first_step _run_once a (st w)) in *;
    destruct (call_soon_refuses s1);
    [ exfalso; destruct Hrun as [msg Hrun]; rewrite Hrun in Ht; simpl in Ht;
      apply app_inv_head in Ht;
      destruct (_is_exiting (proc (st w)) a);
      destruct pre as [|? [|? [|? ?]]]; discriminate
    | split; [reflexivity|];
      destruct (_inner_loop (loop s1)) as [[[cb0 args0]|]|];
      [ cbv zeta in Hrun; rewrite Hrun in Ht; simpl in Ht;
        apply app_inv_head in Ht;
        destruct (_is_exiting (proc (st w)) a);
        destruct pre as [|? [|? [|? [|? [|? ?]]]]]; try discriminate;
        injection Ht; intros; subst; auto
      | exfalso; rewrite Hrun in Ht; simpl in Ht; apply app_inv_head in Ht;
        destruct (_is_exiting (proc (st w)) a);
        destruct pre as [|? [|? [|? [|? ?]]]]; discriminate
      | exfalso; rewrite Hrun in Ht; simpl in Ht; apply app_inv_head in Ht;
        destruct (_is_exiting (proc (st w)) a);
        destruct pre as [|? [|? [|? [|? ?]]]]; discriminate ] ].
Qed.

End More.

(** ** The request and its delivery *)

(** X4.  A request stored by [start_inner_loop] in an empty slot is
    delivered by the next tick: if the first step of that tick returns and
    leaves the slot alone, and [call_soon] accepts, the tick runs the stop
    or the pass, arms the next tick, posts the self-reading callback and
    then calls the stored callback with the stored arguments, once, the
    slot being empty by then. *)
Theorem request_delivered_by_next_tick _run_once call w a cb args :
  _inner_loop (loop (st w)) = Some None ->
  app (loop (st w)) = Some a ->
  let w0 := snd (start_inner_loop cb args w) in
  let s1 := after_first_step _run_once a (st w0) in
  (_is_exiting (proc (st w0)) a = true \/ fst (_run_once (st w0)) = Ok tt) ->
  _inner_loop (loop s1) = _inner_loop (loop (st w0)) ->
  call_soon_refuses s1 = false ->
  fst (start_inner_loop cb args w) = Ok tt /\
  trace (snd (run_once_recurring _run_once call w0))
  = trace w ++ [if _is_exiting (proc (st w0)) a then EvStop else EvRunOnce;
                EvEnqueueTick (next_delegate (host s1));
                EvCallSoon LoopSelfReading;
                EvInvoke cb args (seen_after s1)] /\
  _inner_loop (loop (seen_after s1)) = Some None.
Proof.
  intros Hslot Ha w0 s1 Hfirst Hkept Haccept. subst s1 w0.
  rewrite (start_inner_loop_run cb args w None Hslot) in *.
  cbn [fst snd] in *.
  set (w0 := mkWorld (with_loop (upd_inner_loop (Some (Some (cb, args)))) (st w))
                     (trace w)) in *.
  split; [reflexivity|]. split; [| reflexivity].
  pose proof (run_once_recurring_run _run_once call w0 a Ha Hfirst) as Hrun.
  cbv zeta in Hrun. rewrite Haccept, Hkept in Hrun.
  exact (f_equal (fun r => trace (snd r)) Hrun).
Qed.

(** X5.  A tick runs at most one callback, and only the requested one: if
    [run_once_recurring] invokes [cb] with [args], then [self.app] is set
    and [(cb, args)] is the pair the slot held once the first step of the
    tick was over, and no other invocation is among the events of the
    tick. *)
Theorem callback_is_the_requested_one _run_once call w pre cb args seen post :
  trace (snd (run_once_recurring _run_once call w))
  = trace w ++ pre ++ EvInvoke cb args seen :: post ->
  (exists a,
     app (loop (st w)) = Some a /\
     _inner_loop (loop (after_first_step _run_once a (st w))) = Some (Some (cb, args))) /\
  (forall cb' args' seen', ~ In (EvInvoke cb' args' seen') (pre ++ post)).
Proof.
  intros Ht.
  destruct (run_once_recurring_invokes _run_once call w pre cb args seen post Ht)
    as (a & Ha & _ & _ & Hreq & _ & -> & ->).
  split; [exists a; auto|].
  intros cb' args' seen' Hin. rewrite app_nil_r in Hin.
  destruct (_is_exiting (proc (st w)) a);
    destruct Hin as [H | [H | [H | []]]]; discriminate H.
Qed.

(** X6.  When [call_soon] refuses (the loop is closed, or it is in debug
    mode and belongs to another thread), the tick has armed the next tick
    already: the [RuntimeError] is printed, nothing is queued, and a pending
    inner-loop request is neither run nor dropped. *)
Theorem refused_call_soon_keeps_request _run_once call w a :
  app (loop (st w)) = Some a ->
  (_is_exiting (proc (st w)) a = true \/ fst (_run_once (st w)) = Ok tt) ->
  let s1 := after_first_step _run_once a (st w) in
  let h := next_delegate (host s1) in
  call_soon_refuses s1 = true ->
  exists msg w',
    run_once_recurring _run_once call w = (Ok tt, w') /\
    st w' = log_exc (mkExn RuntimeError msg) (arm_tick s1) /\
    trace w' = trace w ++ [if _is_exiting (proc (st w)) a then EvStop else EvRunOnce;
                           EvEnqueueTick h] /\
    _inner_loop (loop (st w')) = _inner_loop (loop s1) /\
    _ready (loop (st w')) = _ready (loop s1) /\
    delayed (host (st w')) = delayed (host s1) ++ [(5, h)].
Proof.
  intros Ha Hfirst s1 h Hrefuse.
  pose proof (run_once_recurring_run _run_once call w a Ha Hfirst) as Hrun.
  cbv zeta in Hrun. fold s1 in Hrun. rewrite Hrefuse in Hrun.
  destruct Hrun as [msg Hrun]. exists msg. eexists. split; [exact Hrun|].
  repeat split.
Qed.

(** X7.  When the flushed callback raises, [run_once_recurring] prints the
    exception and returns normally; the callback started with the next tick
    waiting and the slot empty, so the failed request is not run again. *)
Theorem failing_callback_is_reported _run_once call w a cb args e s2 :
  app (loop (st w)) = Some a ->
  (_is_exiting (proc (st w)) a = true \/ fst (_run_once (st w)) = Ok tt) ->
  let s1 := after_first_step _run_once a (st w) in
  call_soon_refuses s1 = false ->
  _inner_loop (loop s1) = Some (Some (cb, args)) ->
  call cb args (seen_after s1) = (Raise e, s2) ->
  exists w',
    run_once_recurring _run_once call w = (Ok tt, w') /\
    st w' = log_exc e s2 /\
    stderr (proc (st w')) = stderr (proc s2) ++ [e] /\
    _inner_loop (loop (seen_after s1)) = Some None /\
    delayed (host (seen_after s1))
    = delayed (host s1) ++ [(5, next_delegate (host s1))].
Proof.
  intros Ha Hfirst s1 Haccept Hreq Hcall.
  pose proof (run_once_recurring_run _run_once call w a Ha Hfirst) as Hrun.
  cbv zeta in Hrun. fold s1 in Hrun. rewrite Haccept, Hreq, Hcall in Hrun.
  eexists. split; [exact Hrun|]. repeat split.
Qed.

(** ** The chain of ticks *)

Section Chain.

Variable _run_once : ext_code.
Variable call : ref -> list ref -> ext_code.

Hypothesis pass_returns : forall s, fst (_run_once s) = Ok tt.
Hypothesis pass_keeps_ticks : ext_keeps ticks_and_app _run_once.
Hypothesis call_keeps_ticks : forall cb args, ext_keeps ticks_and_app (call cb args).

Lemma first_step_keeps_ticks a s :
  ticks_and_app (after_first_step _run_once a s) = ticks_and_app s.
Proof.
  unfold after_first_step.
  destruct (_is_exiting (proc s) a); [reflexivity | apply pass_keeps_ticks].
Qed.

(** A tick leaves one continuation more than it found, whatever happens
    after the re-arm. *)
Lemma run_once_recurring_rearms w a :
  app (loop (st w)) = Some a ->
  exists h,
    ticks_and_app (st (snd (run_once_recurring _run_once call w)))
    = (delayed (host (st w)) ++ [(5, h)], Some a).
Proof.
  intros Ha.
  assert (Hfirst : _is_exiting (proc (st w)) a = true \/
                   fst (_run_once (st w)) = Ok tt) by (right; apply pass_returns).
  pose proof (run_once_recurring_run _run_once call w a Ha Hfirst) as Hrun.
  cbv zeta in Hrun.
  pose proof (first_step_keeps_ticks a (st w)) as Hk.
  set (s1 := after_first_step _run_once a (st w)) in *.
  assert (Harm : ticks_and_app (arm_tick s1)
                 = (delayed (host (st w)) ++ [(5, next_delegate (host s1))], Some a)).
  { unfold ticks_and_app in *. simpl. injection Hk as -> ->. rewrite Ha. reflexivity. }
  exists (next_delegate (host s1)). rewrite <- Harm.
  destruct (call_soon_refuses s1).
  - destruct Hrun as [msg ->]. reflexivity.
  - destruct (_inner_loop (loop s1)) as [[[cb args]|]|].
    + cbv zeta in Hrun. rewrite Hrun. cbn [snd st].
      pose proof (call_keeps_ticks cb args (seen_after s1)) as Hc.
      destruct (call cb args (seen_after s1)) as [[[]|e] s2]; cbn [fst snd] in *;
        [exact Hc | exact Hc].
    + rewrite Hrun. reflexivity.
    + rewrite Hrun. reflexivity.
Qed.

Lemma fire_delayed_rearms w a d rest :
  app (loop (st w)) = Some a ->
  delayed (host (st w)) = d :: rest ->
  exists w' h,
    fire_delayed _run_once call w = (Ok tt, w') /\
    delayed (host (st w')) = rest ++ [(5, h)] /\
    app (loop (st w')) = Some a.
Proof.
  intros Ha Hd.
  unfold fire_delayed, bind, gets, modify; simpl. rewrite Hd. simpl.
  set (w0 := mkWorld (with_host (upd_delayed rest) (st w)) (trace w)).
  assert (Ha0 : app (loop (st w0)) = Some a) by exact Ha.
  assert (Ht : tick _run_once call w0 = run_once_recurring _run_once call w0).
  { unfold tick, getattr, bind, gets. simpl. rewrite Ha. reflexivity. }
  destruct (run_once_recurring_rearms w0 a Ha0) as [h Hh].
  exists (snd (tick _run_once call w0)), h. split; [reflexivity|].
  rewrite Ht. unfold ticks_and_app in Hh. injection Hh as H1 H2. auto.
Qed.

Lemma run_exit_handlers_keep_ticks hs :
  keeps ticks_and_app (run_exit_handlers call hs).
Proof.
  induction hs as [|h hs IH]; simpl.
  - apply keeps_ret.
  - apply keeps_bind; [| intro; exact IH].
    destruct h as [|r]; simpl.
    + apply exit_keeps_ticks.
    + unfold invoke. keep.
Qed.

Lemma application_run_keeps_one_tick n : forall w a h,
  app (loop (st w)) = Some a ->
  delayed (host (st w)) = [(5, h)] ->
  exists h',
    delayed (host (st (snd (application_run _run_once call n w)))) = [(5, h')] /\
    app (loop (st (snd (application_run _run_once call n w)))) = Some a.
Proof.
  induction n as [|n IH]; intros w a h Ha Hd.
  - exists h. simpl.
    pose proof (run_exit_handlers_keep_ticks (application_exit (host (st w))) w) as Hk.
    unfold bind at 1 2. unfold gets at 1 2. cbn [fst snd].
    unfold ticks_and_app in Hk. injection Hk as H1 H2. rewrite H1, H2. auto.
  - destruct (fire_delayed_rearms w a (5, h) [] Ha Hd) as (w1 & h1 & Hf & Hd1 & Ha1).
    simpl. rewrite (bind_ok _ _ _ _ _ Hf).
    apply (IH w1 a h1 Ha1 Hd1).
Qed.

End Chain.

(** ** Startup, in full *)

Section StartupState.

Variable _run_once : ext_code.
Variable call : ref -> list ref -> ext_code.

Lemma run_forever_reaches_host the_app n w :
  can_start (st w) ->
  tracking_consistent (loop (st w)) ->
  let h := next_delegate (host (st w)) in
  exists w1,
    run_forever _run_once call the_app n w
    = application_run _run_once call n w1 /\
    _thread_id (loop (st w1)) = Some (current_thread (proc (st w))) /\
    running_loop (proc (st w1)) = Some Self /\
    asyncgen_hooks (proc (st w1))
    = (Some (AsyncgenFirstiterHook Self), Some (AsyncgenFinalizerHook Self)) /\
    _old_agen_hooks (loop (st w1)) = Some (asyncgen_hooks (proc (st w))) /\
    _coroutine_origin_tracking_enabled (loop (st w1)) = _debug (loop (st w)) /\
    app (loop (st w1)) = Some the_app /\
    _inner_loop (loop (st w1)) = Some None /\
    _ready (loop (st w1)) = _ready (loop (st w)) ++ [LoopSelfReading] /\
    application_exit (host (st w1))
    = application_exit (host (st w)) ++ [SelfExitHandler] /\
    delayed (host (st w1)) = delayed (host (st w)) ++ [(5, h)] /\
    task (loop (st w1)) = Some h /\
    trace w1 = trace w ++ [EvCallSoon LoopSelfReading; EvEnqueueTick h] /\
    _closed (loop (st w1)) = false /\
    tracking_consistent (loop (st w1)).
Proof.
  destruct w as [[l p hst] t].
  destruct l as [cl sp ti db te ts rd ap oh tk il].
  unfold can_start, tracking_consistent; simpl.
  intros (-> & -> & Hrun) Hc.
  destruct p as [me rl hooks depth ex err]; simpl in Hrun; subst rl.
  unfold run_forever, call_soon, _check_closed, _check_thread, get_ident,
    is_running, _get_running_loop, _set_running_loop,
    _set_coroutine_origin_tracking, get_asyncgen_hooks, set_asyncgen_hooks,
    enqueue_tick, getattr, bind, gets, modify, emit, ret, raise.
  destruct db, te; simpl.
  - destruct ts as [d|]; [| exfalso; apply Hc; reflexivity].
    eexists. split; [reflexivity|]. simpl. rewrite <- app_assoc.
    repeat split; discriminate.
  - eexists. split; [reflexivity|]. simpl. rewrite <- app_assoc.
    repeat split; discriminate.
  - destruct ts as [d|]; [| exfalso; apply Hc; reflexivity].
    simpl. eexists. split; [reflexivity|]. simpl. rewrite <- app_assoc.
    repeat split; discriminate.
  - eexists. split; [reflexivity|]. simpl. rewrite <- app_assoc.
    repeat split; discriminate.
Qed.

End StartupState.

Lemma sample_idle_pass_keeps_ticks : ext_keeps ticks_and_app Sample.idle_pass.
Proof. intros s; reflexivity. Qed.

Lemma sample_callables_keep_ticks cb args :
  ext_keeps ticks_and_app (Sample.callables cb args).
Proof.
  intros s. unfold Sample.callables.
  destruct (Nat.eqb cb 20); [| reflexivity].
  unfold on_state, start_inner_loop, getattr, bind, gets, modify, ret, raise; simpl.
  destruct (_inner_loop (loop s)) as [[req|]|]; reflexivity.
Qed.

(** X1.  On a loop that may start, [run_forever] reaches
    [Application.Run] with the setup done: the loop is owned by the calling
    thread and recorded as the running loop, its own asynchronous-generator
    hooks are installed and the previous ones saved, [self.app] is the
    application, the exit handler is subscribed after the earlier
    subscribers, a first tick waits on its 5 ms delay behind the
    continuations already waiting, one self-reading callback is queued, and
    the inner-loop slot is [None] whatever it held before. *)
Theorem run_forever_enters_host_loop _run_once call the_app n w :
  can_start (st w) ->
  tracking_consistent (loop (st w)) ->
  let h := next_delegate (host (st w)) in
  exists w1,
    run_forever _run_once call the_app n w
    = application_run _run_once call n w1 /\
    _thread_id (loop (st w1)) = Some (current_thread (proc (st w))) /\
    running_loop (proc (st w1)) = Some Self /\
    asyncgen_hooks (proc (st w1))
    = (Some (AsyncgenFirstiterHook Self), Some (AsyncgenFinalizerHook Self)) /\
    _old_agen_hooks (loop (st w1)) = Some (asyncgen_hooks (proc (st w))) /\
    _coroutine_origin_tracking_enabled (loop (st w1)) = _debug (loop (st w)) /\
    app (loop (st w1)) = Some the_app /\
    _inner_loop (loop (st w1)) = Some None /\
    _ready (loop (st w1)) = _ready (loop (st w)) ++ [LoopSelfReading] /\
    application_exit (host (st w1))
    = application_exit (host (st w)) ++ [SelfExitHandler] /\
    delayed (host (st w1)) = delayed (host (st w)) ++ [(5, h)] /\
    task (loop (st w1)) = Some h /\
    trace w1 = trace w ++ [EvCallSoon LoopSelfReading; EvEnqueueTick h] /\
    _closed (loop (st w1)) = false /\
    tracking_consistent (loop (st w1)).
Proof.
  intros Hs Ht. exact (run_forever_reaches_host _run_once call the_app n w Hs Ht).
Qed.

Lemma run_forever_enters_host_loop_witness :
  can_start Sample.created /\
  tracking_consistent (loop Sample.created) /\
  exists w1,
    run_forever Sample.idle_pass Sample.callables 1 3 (mkWorld Sample.created [])
    = application_run Sample.idle_pass Sample.callables 3 w1 /\
    _thread_id (loop (st w1)) = Some 7 /\
    running_loop (proc (st w1)) = Some Self /\
    asyncgen_hooks (proc (st w1))
    = (Some (AsyncgenFirstiterHook Self), Some (AsyncgenFinalizerHook Self)) /\
    _old_agen_hooks (loop (st w1)) = Some (None, Some (ForeignHook 3)) /\
    _coroutine_origin_tracking_enabled (loop (st w1)) = false /\
    app (loop (st w1)) = Some 1 /\
    _inner_loop (loop (st w1)) = Some None /\
    _ready (loop (st w1)) = [] ++ [LoopSelfReading] /\
    application_exit (host (st w1)) = [] ++ [SelfExitHandler] /\
    delayed (host (st w1)) = [] ++ [(5, 100)] /\
    task (loop (st w1)) = Some 100 /\
    trace w1 = [] ++ [EvCallSoon LoopSelfReading; EvEnqueueTick 100] /\
    _closed (loop (st w1)) = false /\
    tracking_consistent (loop (st w1)).
Proof.
  assert (Hs : can_start Sample.created) by (repeat split).
  assert (Ht : tracking_consistent (loop Sample.created))
    by (intros H; discriminate H).
  split; [exact Hs|]. split; [exact Ht|].
  exact (run_forever_enters_host_loop Sample.idle_pass Sample.callables 1 3
           (mkWorld Sample.created []) Hs Ht).
Defined.

(** X2.  When the scheduler pass returns normally, and neither it nor the
    callbacks touch the waiting continuations or [self.app], a timer firing
    on a started loop takes the oldest continuation and leaves exactly one
    new one behind the others: the tick re-arms itself once, whether the
    application is exiting, [call_soon] refuses or a flushed callback
    raises. *)
Theorem timer_firing_rearms_once _run_once call w a d rest :
  (forall s, fst (_run_once s) = Ok tt) ->
  ext_keeps ticks_and_app _run_once ->
  (forall cb args, ext_keeps ticks_and_app (call cb args)) ->
  app (loop (st w)) = Some a ->
  delayed (host (st w)) = d :: rest ->
  exists w' h,
    fire_delayed _run_once call w = (Ok tt, w') /\
    delayed (host (st w')) = rest ++ [(5, h)] /\
    app (loop (st w')) = Some a.
Proof.
  intros Hret Hpass Hcall Ha Hd.
  exact (fire_delayed_rearms _run_once call Hret Hpass Hcall w a d rest Ha Hd).
Qed.

Lemma timer_firing_rearms_once_witness :
  app (loop Sample.ticking) = Some 1 /\
  delayed (host Sample.ticking) = [(5, 100)] /\
  exists w' h,
    fire_delayed Sample.idle_pass Sample.callables (mkWorld Sample.ticking [])
    = (Ok tt, w') /\
    delayed (host (st w')) = [] ++ [(5, h)] /\
    app (loop (st w')) = Some 1.
Proof.
  split; [reflexivity|]. split; [reflexivity|].
  exact (timer_firing_rearms_once Sample.idle_pass Sample.callables
           (mkWorld Sample.ticking []) 1 (5, 100) []
           (fun s => eq_refl) sample_idle_pass_keeps_ticks
           sample_callables_keep_ticks eq_refl eq_refl).
Defined.

(** X3.  Under the same conditions, a loop started with no continuation
    waiting has exactly one tick waiting when [run_forever] returns,
    however many ticks the host fired before the application exited:
    neither the ticks nor the exit handlers cancel it or add a second
    one. *)
Theorem one_tick_waiting_from_start_to_exit _run_once call the_app n w :
  (forall s, fst (_run_once s) = Ok tt) ->
  ext_keeps ticks_and_app _run_once ->
  (forall cb args, ext_keeps ticks_and_app (call cb args)) ->
  can_start (st w) ->
  tracking_consistent (loop (st w)) ->
  delayed (host (st w)) = [] ->
  exists h,
    delayed (host (st (snd (run_forever _run_once call the_app n w)))) = [(5, h)].
Proof.
  intros Hret Hpass Hcall Hs Ht Hd.
  destruct (run_forever_reaches_host _run_once call the_app n w Hs Ht)
    as (w1 & -> & _ & _ & _ & _ & _ & Ha & _ & _ & _ & Hd1 & _).
  rewrite Hd in Hd1. simpl in Hd1.
  destruct (application_run_keeps_one_tick _run_once call Hret Hpass Hcall
              n w1 the_app _ Ha Hd1) as (h' & Hh & _).
  exists h'. exact Hh.
Qed.

Lemma one_tick_waiting_from_start_to_exit_witness :
  can_start Sample.created /\
  tracking_consistent (loop Sample.created) /\
  delayed (host Sample.created) = [] /\
  exists h,
    delayed (host (st (snd (run_forever Sample.idle_pass Sample.callables 1 3
                              (mkWorld Sample.created []))))) = [(5, h)].
Proof.
  assert (Hs : can_start Sample.created) by (repeat split).
  assert (Ht : tracking_consistent (loop Sample.created))
    by (intros H; discriminate H).
  split; [exact Hs|]. split; [exact Ht|]. split; [reflexivity|].
  exact (one_tick_waiting_from_start_to_exit Sample.idle_pass Sample.callables
           1 3 (mkWorld Sample.created [])
           (fun s => eq_refl) sample_idle_pass_keeps_ticks
           sample_callables_keep_ticks Hs Ht eq_refl).
Defined.

Lemma request_delivered_by_next_tick_witness :
  let w := mkWorld Sample.running [] in
  let w0 := snd (start_inner_loop 20 [21; 22] w) in
  (_inner_loop (loop (st w)) = Some None /\
   app (loop (st w)) = Some 1 /\
   fst (Sample.idle_pass (st w0)) = Ok tt /\
   _inner_loop (loop (after_first_step Sample.idle_pass 1 (st w0)))
   = _inner_loop (loop (st w0)) /\
   call_soon_refuses (after_first_step Sample.idle_pass 1 (st w0)) = false) /\
  fst (start_inner_loop 20 [21; 22] w) = Ok tt /\
  trace (snd (run_once_recurring Sample.idle_pass Sample.callables w0))
  = [] ++ [EvRunOnce; EvEnqueueTick 101; EvCallSoon LoopSelfReading;
           EvInvoke 20 [21; 22] (seen_after Sample.requested)] /\
  _inner_loop (loop (seen_after Sample.requested)) = Some None.
Proof.
  split; [repeat split|].
  exact (request_delivered_by_next_tick Sample.idle_pass Sample.callables
           (mkWorld Sample.running []) 1 20 [21; 22]
           eq_refl eq_refl (or_intror eq_refl) eq_refl eq_refl).
Defined.

Lemma callback_is_the_requested_one_witness :
  let w := mkWorld Sample.requested [] in
  let pre := [EvRunOnce; EvEnqueueTick 101; EvCallSoon LoopSelfReading] in
  trace (snd (run_once_recurring Sample.idle_pass Sample.callables w))
  = trace w ++ pre ++ EvInvoke 20 [21; 22] (seen_after Sample.requested) :: [] /\
  (exists a,
     app (loop (st w)) = Some a /\
     _inner_loop (loop (after_first_step Sample.idle_pass a (st w)))
     = Some (Some (20, [21; 22]))) /\
  (forall cb' args' seen', ~ In (EvInvoke cb' args' seen') (pre ++ [])).
Proof.
  split; [reflexivity|].
  exact (callback_is_the_requested_one Sample.idle_pass Sample.callables
           (mkWorld Sample.requested []) _ 20 [21; 22] _ [] eq_refl).
Defined.

Lemma refused_call_soon_keeps_request_witness :
  let w := mkWorld Sample.closed_with_request [] in
  (app (loop (st w)) = Some 1 /\
   fst (Sample.idle_pass (st w)) = Ok tt /\
   call_soon_refuses (after_first_step Sample.idle_pass 1 (st w)) = true) /\
  exists msg w',
    run_once_recurring Sample.idle_pass Sample.callables w = (Ok tt, w') /\
    st w' = log_exc (mkExn RuntimeError msg) (arm_tick Sample.closed_with_request) /\
    trace w' = [] ++ [EvRunOnce; EvEnqueueTick 101] /\
    _inner_loop (loop (st w')) = Some (Some (20, [21; 22])) /\
    _ready (loop (st w')) = [LoopSelfReading] /\
    delayed (host (st w')) = [] ++ [(5, 101)].
Proof.
  split; [repeat split|].
  exact (refused_call_soon_keeps_request Sample.idle_pass Sample.callables
           (mkWorld Sample.closed_with_request []) 1
           eq_refl (or_intror eq_refl) eq_refl).
Defined.

Lemma failing_callback_is_reported_witness :
  let w := mkWorld Sample.requested [] in
  let e := mkExn (UserException "DialogError") "failed" in
  (app (loop (st w)) = Some 1 /\
   fst (Sample.idle_pass (st w)) = Ok tt /\
   call_soon_refuses (after_first_step Sample.idle_pass 1 (st w)) = false /\
   _inner_loop (loop (after_first_step Sample.idle_pass 1 (st w)))
   = Some (Some (20, [21; 22])) /\
   Sample.failing_callables 20 [21; 22] (seen_after Sample.requested)
   = (Raise e, seen_after Sample.requested)) /\
  exists w',
    run_once_recurring Sample.idle_pass Sample.failing_callables w = (Ok tt, w') /\
    st w' = log_exc e (seen_after Sample.requested) /\
    stderr (proc (st w')) = [] ++ [e] /\
    _inner_loop (loop (seen_after Sample.requested)) = Some None /\
    delayed (host (seen_after Sample.requested)) = [] ++ [(5, 101)].
Proof.
  split; [repeat split|].
  exact (failing_callback_is_reported Sample.idle_pass Sample.failing_callables
           (mkWorld Sample.requested []) 1 20 [21; 22] _ _
           eq_refl (or_intror eq_refl) eq_refl eq_refl eq_refl).
Defined.

(** ** The continuation and the exit handler, at their edges *)

Lemma exit_untouched w :
  untouched_by_exit (st (snd (winforms_application_exit w)))
  = untouched_by_exit (st w) /\
  trace (snd (winforms_application_exit w)) = trace w.
Proof.
  destruct w as [[l p h] t].
  destruct l as [cl sp ti db te ts rd ap oh tk il].
  destruct te, ts, oh; split; reflexivity.
Qed.


(** X8.  [tick] stands outside the [try] block: it returns normally
    exactly when [self.app] is set, and is then [run_once_recurring];
    without [self.app] it raises [AttributeError] and changes nothing. *)
Theorem tick_needs_app _run_once call w :
  (fst (tick _run_once call w) = Ok tt <-> app (loop (st w)) <> None) /\
  (app (loop (st w)) = None ->
   tick _run_once call w = (Raise (mkExn AttributeError "app"), w)) /\
  (app (loop (st w)) <> None ->
   tick _run_once call w = run_once_recurring _run_once call w).
Proof.
  assert (Hok : fst (run_once_recurring _run_once call w) = Ok tt).
  { rewrite run_once_recurring_handled.
    destruct (run_once_recurring_body _run_once call w) as [[[]|e] w1];
      reflexivity. }
  assert (Htick : tick _run_once call w
                  = match app (loop (st w)) with
                    | Some _ => run_once_recurring _run_once call w
                    | None => (Raise (mkExn AttributeError "app"), w)
                    end).
  { unfold tick, getattr. unfold bind at 1 2. unfold gets at 1.
    destruct (app (loop (st w))); reflexivity. }
  rewrite Htick.
  destruct (app (loop (st w))) as [a|].
  - split; [| split].
    + split; [intros _; discriminate | intros _; exact Hok].
    + discriminate.
    + reflexivity.
  - split; [| split].
    + split; [discriminate | intros H; exfalso; apply H; reflexivity].
    + reflexivity.
    + intros H; exfalso; apply H; reflexivity.
Qed.

(** X9.  The exit handler resets the stopping flag, the thread id, the
    running loop, origin tracking and the asynchronous-generator hooks, and
    nothing else, whether it returns or raises: the waiting ticks,
    [self.task], a pending inner-loop request, the ready queue, [self.app],
    the saved hooks, the exit subscriptions and what was printed are as
    before. *)
Theorem exit_handler_leaves_the_rest w :
  untouched_by_exit (st (snd (winforms_application_exit w)))
  = untouched_by_exit (st w) /\
  trace (snd (winforms_application_exit w)) = trace w.
Proof. exact (exit_untouched w). Qed.

(** X10.  The exit handler returns normally exactly when the hooks saved
    by [run_forever] are there and origin tracking, if on, has its saved
    depth.  In every case the stopping flag, the thread id and the running
    loop are cleared; when it raises, the asynchronous-generator hooks of
    the process stay as they were. *)
Theorem exit_handler_failure w :
  let w' := snd (winforms_application_exit w) in
  (fst (winforms_application_exit w) = Ok tt <->
   _old_agen_hooks (loop (st w)) <> None /\ tracking_consistent (loop (st w))) /\
  (_stopping (loop (st w')) = false /\
   _thread_id (loop (st w')) = None /\
   running_loop (proc (st w')) = None) /\
  (fst (winforms_application_exit w) <> Ok tt ->
   asyncgen_hooks (proc (st w')) = asyncgen_hooks (proc (st w))).
Proof.
  destruct w as [[l p h] t].
  destruct l as [cl sp ti db te ts rd ap oh tk il].
  unfold tracking_consistent.
  destruct te, ts, oh; cbn;
    (split; [| split; [repeat split |]]);
    try (intros H; solve [reflexivity | exfalso; apply H; reflexivity]);
    (split;
     [ intros H; try discriminate H; split; intros; discriminate
     | intros [H1 H2]; try reflexivity; exfalso;
       solve [ apply H1; reflexivity | apply H2; reflexivity ] ]).
Qed.

(** ** Starting again *)

Lemma keeps_try_except {A B} (proj : State -> B) (body : M A) cls handler :
  keeps proj body -> (forall e, keeps proj (handler e)) ->
  keeps proj (try_except body cls handler).
Proof.
  intros Hb Hh w. unfold try_except. specialize (Hb w).
  destruct (body w) as [[a|e] w1]; simpl in *; [exact Hb|].
  destruct (isinstance e cls); [| exact Hb].
  rewrite (Hh e w1). exact Hb.
Qed.

Section Restart.

Variable _run_once : ext_code.
Variable call : ref -> list ref -> ext_code.

Hypothesis pass_keeps_view : ext_keeps restart_view _run_once.
Hypothesis call_keeps_view : forall cb args, ext_keeps restart_view (call cb args).

Lemma run_once_recurring_keeps_view :
  keeps restart_view (run_once_recurring _run_once call).
Proof.
  unfold run_once_recurring. apply keeps_try_except.
  - unfold run_once_recurring_body, stop, enqueue_tick, call_soon,
      _check_closed, _check_thread, get_ident, invoke.
    keep.
  - intro e. unfold print_exc. keep.
Qed.

Lemma fire_delayed_keeps_view w :
  exists w1,
    fire_delayed _run_once call w = (Ok tt, w1) /\
    restart_view (st w1) = restart_view (st w).
Proof.
  unfold fire_delayed, bind, gets, modify, ret; simpl.
  destruct (delayed (host (st w))) as [|d rest]; simpl.
  - eexists; split; reflexivity.
  - eexists; split; [reflexivity|].
    assert (Ht : keeps restart_view (tick _run_once call)).
    { unfold tick. apply keeps_bind; [apply keeps_getattr|].
      intro. apply run_once_recurring_keeps_view. }
    rewrite Ht. reflexivity.
Qed.

(** The exit handler, run once for each time it was subscribed. *)
Lemma exit_handlers_clean_up k : forall w h0,
  _old_agen_hooks (loop (st w)) = Some h0 ->
  tracking_consistent (loop (st w)) ->
  exists w',
    run_exit_handlers call (repeat SelfExitHandler (S k)) w = (Ok tt, w') /\
    asyncgen_hooks (proc (st w')) = h0 /\
    stopped (st w') /\
    untouched_by_exit (st w') = untouched_by_exit (st w).
Proof.
  induction k as [|k IH]; intros w h0 Hold Hc.
  - destruct (winforms_application_exit_run w h0 Hold Hc) as (w' & Hrun & Hh & Hs & _).
    destruct (exit_untouched w) as [Hu _]. rewrite Hrun in Hu.
    exists w'. simpl. rewrite (bind_ok _ _ _ _ _ Hrun). auto.
  - destruct (winforms_application_exit_run w h0 Hold Hc) as (w1 & Hrun & Hh & Hs & _).
    destruct (exit_untouched w) as [Hu _]. rewrite Hrun in Hu. cbn [snd] in Hu.
    assert (Hold1 : _old_agen_hooks (loop (st w1)) = Some h0).
    { rewrite <- Hold.
      exact (f_equal (fun v => let '(_, _, _, _, o, _, _, _, _, _, _) := v in o) Hu). }
    assert (Hc1 : tracking_consistent (loop (st w1))).
    { intros He. destruct Hs as (_ & _ & _ & Hoff). congruence. }
    destruct (IH w1 h0 Hold1 Hc1) as (w' & Hrest & Hh' & Hs' & Hu').
    exists w'. change (repeat SelfExitHandler (S (S k)))
      with (SelfExitHandler :: repeat SelfExitHandler (S k)).
    cbn [run_exit_handlers run_exit_handler].
    rewrite (bind_ok _ _ _ _ _ Hrun). split; [exact Hrest|].
    split; [exact Hh'|]. split; [exact Hs'|]. congruence.
Qed.

Lemma application_run_cleans_up_all n : forall w h0 te ts k,
  bookkeeping (st w) = (Some h0, te, ts, repeat SelfExitHandler (S k)) ->
  (te = true -> ts <> None) ->
  exists w',
    application_run _run_once call n w = (Ok tt, w') /\
    asyncgen_hooks (proc (st w')) = h0 /\
    stopped (st w') /\
    _closed (loop (st w')) = _closed (loop (st w)) /\
    application_exit (host (st w')) = repeat SelfExitHandler (S k).
Proof.
  induction n as [|n IH]; intros w h0 te ts k Hb Hc.
  - unfold bookkeeping in Hb. injection Hb as Hold Hte Hts Hsub.
    destruct (exit_handlers_clean_up k w h0 Hold) as (w' & Hrun & Hh & Hs & Hu).
    { unfold tracking_consistent. rewrite Hte, Hts. exact Hc. }
    exists w'. simpl. unfold bind at 1. unfold gets at 1. rewrite Hsub.
    split; [exact Hrun|]. split; [exact Hh|]. split; [exact Hs|].
    split.
    + exact (f_equal (fun v => let '(c, _, _, _, _, _, _, _, _, _, _) := v in c) Hu).
    + rewrite <- Hsub.
      exact (f_equal (fun v => let '(_, _, _, _, _, _, _, _, _, _, hh) := v in
                               application_exit hh) Hu).
  - destruct (fire_delayed_keeps_view w) as (w1 & Hf & Hv).
    assert (Hcl : _closed (loop (st w1)) = _closed (loop (st w)))
      by exact (f_equal fst Hv).
    assert (Hb1 : bookkeeping (st w1) = bookkeeping (st w))
      by exact (f_equal snd Hv).
    simpl. rewrite (bind_ok _ _ _ _ _ Hf).
    destruct (IH w1 h0 te ts k) as (w' & Hrun & Hh & Hs & Hcl' & Hsub');
      [rewrite Hb1; exact Hb | exact Hc |].
    exists w'. split; [exact Hrun|]. split; [exact Hh|]. split; [exact Hs|].
    split; [congruence | exact Hsub'].
Qed.

End Restart.

(** X11.  A loop that has run to the exit of the application may be
    started again (the pass and the callbacks leaving the closed flag, the
    saved values and the exit subscriptions alone): the second
    [run_forever] passes its checks and returns after the second exit with
    the hooks of the process as they were before the first start.  The exit
    handler is never unsubscribed: the second start subscribes it a second
    time. *)
Theorem loop_starts_again_after_exit _run_once call app1 n1 app2 n2 w :
  ext_keeps restart_view _run_once ->
  (forall cb args, ext_keeps restart_view (call cb args)) ->
  can_start (st w) ->
  tracking_consistent (loop (st w)) ->
  application_exit (host (st w)) = [] ->
  exists w1 w2,
    run_forever _run_once call app1 n1 w = (Ok tt, w1) /\
    run_forever _run_once call app2 n2 w1 = (Ok tt, w2) /\
    asyncgen_hooks (proc (st w2)) = asyncgen_hooks (proc (st w)) /\
    stopped (st w2) /\
    application_exit (host (st w1)) = [SelfExitHandler] /\
    application_exit (host (st w2)) = [SelfExitHandler; SelfExitHandler].
Proof.
  intros Hpass Hcall Hs Ht Hsub.
  destruct (run_forever_reaches_host _run_once call app1 n1 w Hs Ht)
    as (u1 & Hrun1 & _ & _ & _ & Hold1 & _ & _ & _ & _ & Hsub1 & _ & _ & _ & Hcl1 & Hc1).
  rewrite Hsub in Hsub1. simpl in Hsub1.
  destruct (application_run_cleans_up_all _run_once call Hpass Hcall n1 u1
              (asyncgen_hooks (proc (st w)))
              (_coroutine_origin_tracking_enabled (loop (st u1)))
              (_coroutine_origin_tracking_saved_depth (loop (st u1))) 0)
    as (w1 & Happ1 & Hh1 & Hst1 & Hclosed1 & Hsubs1).
  { unfold bookkeeping. rewrite Hold1, Hsub1. reflexivity. }
  { exact Hc1. }
  assert (Hs1 : can_start (st w1)).
  { destruct Hst1 as (Hti & _ & Hrl & _). repeat split; congruence. }
  assert (Ht1 : tracking_consistent (loop (st w1))).
  { intros He. destruct Hst1 as (_ & _ & _ & Hoff). congruence. }
  destruct (run_forever_reaches_host _run_once call app2 n2 w1 Hs1 Ht1)
    as (u2 & Hrun2 & _ & _ & _ & Hold2 & _ & _ & _ & _ & Hsub2 & _ & _ & _ & Hcl2 & Hc2).
  rewrite Hsubs1 in Hsub2. simpl in Hsub2. rewrite Hh1 in Hold2.
  destruct (application_run_cleans_up_all _run_once call Hpass Hcall n2 u2
              (asyncgen_hooks (proc (st w)))
              (_coroutine_origin_tracking_enabled (loop (st u2)))
              (_coroutine_origin_tracking_saved_depth (loop (st u2))) 1)
    as (w2 & Happ2 & Hh2 & Hst2 & _ & Hsubs2).
  { unfold bookkeeping. rewrite Hold2, Hsub2. reflexivity. }
  { exact Hc2. }
  exists w1, w2. rewrite Hrun1, Hrun2. auto 10.
Qed.

Lemma sample_idle_pass_keeps_view : ext_keeps restart_view Sample.idle_pass.
Proof. intros s; reflexivity. Qed.

Lemma sample_callables_keep_view cb args :
  ext_keeps restart_view (Sample.callables cb args).
Proof.
  intros s. unfold Sample.callables.
  destruct (Nat.eqb cb 20); [| reflexivity].
  unfold on_state, start_inner_loop, getattr, bind, gets, modify, ret, raise; simpl.
  destruct (_inner_loop (loop s)) as [[req|]|]; reflexivity.
Qed.

Lemma loop_starts_again_after_exit_witness :
  can_start Sample.created /\
  tracking_consistent (loop Sample.created) /\
  application_exit (host Sample.created) = [] /\
  exists w1 w2,
    run_forever Sample.idle_pass Sample.callables 1 3 (mkWorld Sample.created [])
    = (Ok tt, w1) /\
    run_forever Sample.idle_pass Sample.callables 2 1 w1 = (Ok tt, w2) /\
    asyncgen_hooks (proc (st w2)) = (None, Some (ForeignHook 3)) /\
    stopped (st w2) /\
    application_exit (host (st w1)) = [SelfExitHandler] /\
    application_exit (host (st w2)) = [SelfExitHandler; SelfExitHandler].
Proof.
  assert (Hs : can_start Sample.created) by (repeat split).
  assert (Ht : tracking_consistent (loop Sample.created))
    by (intros H; discriminate H).
  split; [exact Hs|]. split; [exact Ht|]. split; [reflexivity|].
  exact (loop_starts_again_after_exit Sample.idle_pass Sample.callables 1 3 2 1
           (mkWorld Sample.created [])
           sample_idle_pass_keeps_view sample_callables_keep_view
           Hs Ht eq_refl).
Defined.
